(** * Tradle: order matching, P&L and trade-store deduplication

    A shallow embedding of the trading-journal core of the repository:
    [TradeCalculator] (FIFO matcher, per-trade P&L, summary statistics),
    [TradleApp.mergeTradesWithDatabase] and [extractTradeOrderIds] (the local
    de-duplicating merge), [FirebaseSync.pullTradeDatabase] (the remote merge
    by content fingerprint) and [CSVParser.validateOrder].

    Modelling conventions.
    - A JavaScript number is a value of [num]: an exact rational, one of the
      two infinities, or NaN.  Arithmetic on finite values is exact: the
      rounding of IEEE-754 doubles is not modelled, nor is the sign of zero.
    - Quantities ([qty], [quantity]) are integers, as [parseInteger] produces
      them.  A timestamp is the millisecond value of a valid [Date]; [None]
      stands for [null].
    - Strings are byte strings; [toLowerCase] maps the letters A to Z.
    - An object used as a dictionary is a [gmap], a [Set] a [gset]; symbols
      are taken not to name a property of [Object.prototype].
    - Code that mutates [this.tradeDatabase] or a local accumulator passes
      the state along explicitly; console output is left out. *)

From Stdlib Require Import ZArith QArith Qabs Qround Qreduction String Ascii List Sorted Lia Lqa.
From Stdlib Require Import Floats.
From stdpp Require Import gmap strings list.
From Equations Require Import Equations.
Close Scope Q_scope.
Open Scope string_scope.
Open Scope list_scope.
Open Scope Z_scope.

(** ** JavaScript numbers *)

Module JSNum.

Inductive num : Type :=
| NaN
| NegInf
| PosInf
| Fin (q : Q).

(** Finite results are kept in lowest terms, so that equal values are equal
    terms. *)
Definition fin (q : Q) : num := Fin (Qred q).

Definition ofZ (z : Z) : num := Fin (inject_Z z).

Definition zero : num := ofZ 0.

(** Sign of a number as a [comparison] with zero ([Eq] for zero and NaN). *)
Definition sign (x : num) : comparison :=
  match x with
  | NaN => Eq
  | NegInf => Lt
  | PosInf => Gt
  | Fin q => (q ?= 0)%Q
  end.

Definition signMul (a b : comparison) : comparison :=
  match a, b with
  | Eq, _ | _, Eq => Eq
  | Gt, Gt | Lt, Lt => Gt
  | _, _ => Lt
  end.

(** The infinity of a given sign; [Eq] is the undefined case. *)
Definition infOf (c : comparison) : num :=
  match c with
  | Gt => PosInf
  | Lt => NegInf
  | Eq => NaN
  end.

Definition neg (x : num) : num :=
  match x with
  | NaN => NaN
  | NegInf => PosInf
  | PosInf => NegInf
  | Fin q => fin (- q)
  end.

Definition add (x y : num) : num :=
  match x, y with
  | NaN, _ | _, NaN => NaN
  | PosInf, NegInf | NegInf, PosInf => NaN
  | PosInf, _ | _, PosInf => PosInf
  | NegInf, _ | _, NegInf => NegInf
  | Fin a, Fin b => fin (a + b)
  end.

Definition sub (x y : num) : num := add x (neg y).

Definition mul (x y : num) : num :=
  match x, y with
  | NaN, _ | _, NaN => NaN
  | Fin a, Fin b => fin (a * b)
  | _, _ => infOf (signMul (sign x) (sign y))
  end.

Definition div (x y : num) : num :=
  match x, y with
  | NaN, _ | _, NaN => NaN
  | Fin a, Fin b =>
      if Qeq_bool b 0 then infOf (a ?= 0)%Q else fin (a / b)
  | Fin _, _ => zero
  | _, Fin b =>
      infOf (signMul (sign x) (if Qeq_bool b 0 then Gt else (b ?= 0)%Q))
  | _, _ => NaN
  end.

Definition abs (x : num) : num :=
  match x with
  | NaN => NaN
  | NegInf | PosInf => PosInf
  | Fin q => fin (Qabs q)
  end.

(** [x < y]; every comparison with NaN is false. *)
Definition ltb (x y : num) : bool :=
  match x, y with
  | NaN, _ | _, NaN => false
  | _, NegInf => false
  | NegInf, _ => true
  | PosInf, _ => false
  | Fin _, PosInf => true
  | Fin a, Fin b => match (a ?= b)%Q with Lt => true | _ => false end
  end.

Definition gtb (x y : num) : bool := ltb y x.

(** Truthiness: zero and NaN are falsy. *)
Definition truthy (x : num) : bool :=
  match x with
  | NaN => false
  | NegInf | PosInf => true
  | Fin q => negb (Qeq_bool q 0)
  end.

(** [x || d]. *)
Definition orElse (x d : num) : num := if truthy x then x else d.

(** [Math.round]: the nearest integer, halves rounded up. *)
Definition round (x : num) : num :=
  match x with
  | Fin q => ofZ (Qfloor (q + (1 # 2)))
  | other => other
  end.

(** [Math.max(a, b)] and [Math.min(a, b)]: NaN is contagious. *)
Definition max (x y : num) : num :=
  match x, y with
  | NaN, _ | _, NaN => NaN
  | _, _ => if ltb x y then y else x
  end.

Definition min (x y : num) : num :=
  match x, y with
  | NaN, _ | _, NaN => NaN
  | _, _ => if ltb y x then y else x
  end.

(** Numeric coercion and truthiness of a possibly-[null] number. *)
Definition toNumber (o : option num) : num :=
  match o with
  | Some x => x
  | None => zero
  end.

Definition truthyOpt (o : option num) : bool :=
  match o with
  | Some x => truthy x
  | None => false
  end.

End JSNum.

Import JSNum.

#[global] Arguments add : simpl never.
#[global] Arguments sub : simpl never.
#[global] Arguments mul : simpl never.
#[global] Arguments div : simpl never.
#[global] Arguments neg : simpl never.
#[global] Arguments abs : simpl never.
#[global] Arguments ltb : simpl never.
#[global] Arguments gtb : simpl never.
#[global] Arguments truthy : simpl never.
#[global] Arguments orElse : simpl never.
#[global] Arguments round : simpl never.
#[global] Arguments max : simpl never.
#[global] Arguments min : simpl never.

Declare Scope num_scope.
Delimit Scope num_scope with num.
Bind Scope num_scope with num.
Infix "+" := add : num_scope.
Infix "-" := sub : num_scope.
Infix "*" := mul : num_scope.
Infix "/" := div : num_scope.
Infix "<?" := ltb : num_scope.
Infix ">?" := gtb : num_scope.

(** Decimal literals for examples: [dec 697075 2] is 6970.75. *)
Definition dec (digits : Z) (places : nat) : num :=
  fin (inject_Z digits / inject_Z (10 ^ Z.of_nat places)).

(** ** JavaScript strings *)

Module JSString.

Definition code (c : ascii) : N := N_of_ascii c.

Definition isDigit (c : ascii) : bool := ((48 <=? code c) && (code c <=? 57))%N.
Definition isUpper (c : ascii) : bool := ((65 <=? code c) && (code c <=? 90))%N.
Definition isLower (c : ascii) : bool := ((97 <=? code c) && (code c <=? 122))%N.

Definition lowerChar (c : ascii) : ascii :=
  if isUpper c then ascii_of_N (code c + 32) else c.

(** [s.toLowerCase()], on the ASCII range. *)
Fixpoint toLowerCase (s : string) : string :=
  match s with
  | EmptyString => EmptyString
  | String c r => String (lowerChar c) (toLowerCase r)
  end.

(** [s.replace(/[^...]/g, '')]: keep the characters of a class. *)
Fixpoint keep (p : ascii -> bool) (s : string) : string :=
  match s with
  | EmptyString => EmptyString
  | String c r => if p c then String c (keep p r) else keep p r
  end.

(** The longest prefix of [s] made of characters of a class, and the rest. *)
Fixpoint span (p : ascii -> bool) (s : string) : string * string :=
  match s with
  | EmptyString => (EmptyString, EmptyString)
  | String c r =>
      if p c then let '(a, b) := span p r in (String c a, b)
      else (EmptyString, s)
  end.

(** [s.replace(/^[A-Z0-9_]+:/, '')]: drop an exchange prefix. *)
Definition isPrefixChar (c : ascii) : bool :=
  isUpper c || isDigit c || Ascii.eqb c "_".

Definition stripExchangePrefix (s : string) : string :=
  match span isPrefixChar s with
  | (String _ _, String ":" rest) => rest
  | _ => s
  end.

(** [s.startsWith(p)]. *)
Definition startsWith (p s : string) : bool := String.prefix p s.

(** [s.includes(p)]. *)
Fixpoint includes (p s : string) : bool :=
  String.prefix p s ||
  match s with
  | EmptyString => false
  | String _ r => includes p r
  end.

(** [s.split(sep)] for a one-character separator. *)
Fixpoint splitAux (sep : ascii) (s : string) (cur : string) : list string :=
  match s with
  | EmptyString => [cur]
  | String c r =>
      if Ascii.eqb c sep then cur :: splitAux sep r EmptyString
      else splitAux sep r (cur +:+ String c EmptyString)
  end.

Definition split (sep : ascii) (s : string) : list string :=
  splitAux sep s EmptyString.

(** Truthiness of a string and [a || b] on strings. *)
Definition nonEmpty (s : string) : bool :=
  match s with
  | EmptyString => false
  | _ => true
  end.

Definition orStr (a b : string) : string := if nonEmpty a then a else b.

(** Value of a run of decimal digits. *)
Definition digitVal (c : ascii) : Z := Z.of_N (code c) - 48.

Fixpoint digitsVal (acc : Z) (s : string) : Z :=
  match s with
  | EmptyString => acc
  | String c r => digitsVal (10 * acc + digitVal c) r
  end.

(** [parseFloat] on a string over the alphabet [0-9.]: the longest prefix
    [digits[.digits]] with at least one digit; NaN when there is none. *)
Definition parseUnsignedDecimal (s : string) : num :=
  let '(ip, rest) := span isDigit s in
  let fp := match rest with
            | String "." r => fst (span isDigit r)
            | _ => EmptyString
            end in
  if nonEmpty ip || nonEmpty fp then
    fin (inject_Z (digitsVal 0 ip)
         + inject_Z (digitsVal 0 fp) / inject_Z (10 ^ Z.of_nat (String.length fp)))
  else NaN.

(** [s.match(/(\d+)/)]: the first run of digits, if any. *)
Fixpoint firstDigitRun (s : string) : option string :=
  match s with
  | EmptyString => None
  | String c r =>
      if isDigit c then Some (fst (span isDigit s)) else firstDigitRun r
  end.

End JSString.

Import JSString.

(** ** Data model *)

(** An order as [csvParser.createOrderObject] builds it.  [commission] is the
    numeric reading ([parseFloat]) of the CSV field, NaN for a blank field
    and [None] when the property is absent ([undefined]); [originalQty] is
    only set on the copies the matcher makes. *)
Record Order : Type := mkOrder {
  symbol : string;
  side : string;
  orderType : string;
  qty : Z;
  fillPrice : option num;
  status : string;
  commission : option num;
  placingTime : option Z;
  orderId : option string;
  leverage : string;
  margin : string;
  broker : string;
  originalQty : option Z
}.

(** An open lot of a position: [{ qty, price, order }]. *)
Record Lot : Type := mkLot {
  lotQty : Z;
  lotPrice : option num;
  lotOrder : Order
}.

(** A trade object.  The first group of fields is set by
    [createTradeObject], the second by [calculateTrade] (NaN, the empty
    string, [false] and [None] stand for a property that is not there yet),
    the last by [mergeTradesWithDatabase].  Display-only properties ([date],
    [boughtDate], [soldDate], [duration], [currency], ...) are left out. *)
Record Trade : Type := mkTrade {
  tradeId : option string;
  entryOrder : option Order;
  exitOrder : option Order;
  entryPrice : option num;
  exitPrice : option num;
  quantity : Z;
  entryTime : option Z;
  exitTime : option Z;
  contract : string;
  tradeSymbol : string;
  tradeSide : string;
  tradeMargin : num;
  tradeLeverage : string;
  tradeBroker : string;
  pointDifference : num;
  grossProfit : num;
  totalCommission : num;
  netProfit : num;
  returnValue : num;
  tradeStatus : string;
  isWin : bool;
  entryOrderId : option string;
  exitOrderId : option string;
  allOrderIds : list string
}.

(** [`${x}`] for a possibly-undefined string. *)
Definition showId (o : option string) : string :=
  match o with
  | Some s => s
  | None => "undefined"
  end.

(** ** TradeCalculator: the FIFO matcher *)

Module TradeCalculator.

(** [parseMargin] of [createTradeObject]: "87,209.38 USD" is 87209.38. *)
Definition parseMargin (m : string) : num :=
  if nonEmpty m then
    orElse (parseUnsignedDecimal (keep (fun c => isDigit c || Ascii.eqb c ".") m)) zero
  else zero.

Definition createTradeObject (order1 order2 : Order) : Trade :=
  let entryOrder := order1 in
  let exitOrder := order2 in
  let side := if String.eqb (toLowerCase (side entryOrder)) "buy" then "LONG" else "SHORT" in
  {| tradeId :=
       Some ("trade_" +:+ showId (orderId entryOrder) +:+ "_" +:+ showId (orderId exitOrder));
     entryOrder := Some entryOrder;
     exitOrder := Some exitOrder;
     entryPrice := fillPrice entryOrder;
     exitPrice := fillPrice exitOrder;
     quantity := qty entryOrder;
     entryTime := placingTime entryOrder;
     exitTime := placingTime exitOrder;
     contract :=
       orStr (orStr (stripExchangePrefix (symbol entryOrder)) (symbol entryOrder)) "Unknown";
     tradeSymbol := "";
     tradeSide := side;
     tradeMargin := parseMargin (orStr (margin entryOrder) (margin exitOrder));
     tradeLeverage := orStr (leverage entryOrder) (leverage exitOrder);
     tradeBroker := orStr (broker entryOrder) (broker exitOrder);
     pointDifference := NaN;
     grossProfit := NaN;
     totalCommission := NaN;
     netProfit := NaN;
     returnValue := NaN;
     tradeStatus := "";
     isWin := false;
     entryOrderId := None;
     exitOrderId := None;
     allOrderIds := [] |}.

(** [{ ...o, originalQty: o.qty, qty: closeQty }]. *)
Definition orderCopy (o : Order) (closeQty : Z) : Order :=
  {| symbol := symbol o; side := side o; orderType := orderType o;
     qty := closeQty;
     fillPrice := fillPrice o; status := status o; commission := commission o;
     placingTime := placingTime o; orderId := orderId o; leverage := leverage o;
     margin := margin o; broker := broker o;
     originalQty := Some (qty o) |}.

(** The trade emitted when [order] closes [closeQty] of [lot]. *)
Definition closingTrade (lot : Lot) (order : Order) (closeQty : Z) : Trade :=
  createTradeObject (orderCopy (lotOrder lot) closeQty) (orderCopy order closeQty).

(** [lot.qty -= closeQty]. *)
Definition lotMinus (lot : Lot) (closeQty : Z) : Lot :=
  {| lotQty := lotQty lot - closeQty; lotPrice := lotPrice lot; lotOrder := lotOrder lot |}.

(** A value together with the equation that names it, to keep the outcome
    of a loop test at hand where termination is argued. *)
Definition inspect {A : Type} (x : A) : { y : A | x = y } := exist _ x eq_refl.

(** Number of iterations the closing loop can still make: one per lot that
    can be shifted, plus one while the order has quantity left. *)
Definition loopMeasure (remainingQty : Z) (pos : list Lot) : nat :=
  (length pos + (if (0 <? remainingQty)%Z then 1 else 0))%nat.

(** The loop [while (remainingQty > 0 && pos.length > 0)] of [matchTrades]:
    returns the trades pushed, the quantity left on the order and the queue
    as the loop leaves it. *)
Equations? closeLots (order : Order) (remainingQty : Z) (pos : list Lot)
  : list Trade * Z * list Lot by wf (loopMeasure remainingQty pos) lt :=
closeLots order remainingQty [] := ([], remainingQty, []);
closeLots order remainingQty (lot :: rest) with inspect (0 <? remainingQty) := {
  | exist _ false _ := ([], remainingQty, lot :: rest);
  | exist _ true Hrem
    with inspect (lotQty lot - Z.min remainingQty (lotQty lot) <=? 0) := {
    | exist _ true _ :=
        let closeQty := Z.min remainingQty (lotQty lot) in
        let '(trades, remaining', pos') :=
          closeLots order (remainingQty - closeQty) rest in
        (closingTrade lot order closeQty :: trades, remaining', pos');
    | exist _ false Hleft :=
        let closeQty := Z.min remainingQty (lotQty lot) in
        let '(trades, remaining', pos') :=
          closeLots order (remainingQty - closeQty) (lotMinus lot closeQty :: rest) in
        (closingTrade lot order closeQty :: trades, remaining', pos') } }.
Proof.
  all: unfold loopMeasure; simpl; subst closeQty; rewrite Hrem.
  - destruct (0 <? remainingQty - Z.min remainingQty (lotQty lot)); lia.
  - destruct (0 <? remainingQty - Z.min remainingQty (lotQty lot)) eqn:E; lia.
Qed.

(** A time in arithmetic: its milliseconds, and 0 for [null]. *)
Definition timeValue (t : option Z) : Z := default 0 t.

(** The comparator of the sort:
    [(a.placingTime - b.placingTime) || (a.fillPrice - b.fillPrice)]. *)
Definition compareOrders (a b : Order) : num :=
  orElse (ofZ (timeValue (placingTime a) - timeValue (placingTime b)))
         (toNumber (fillPrice a) - toNumber (fillPrice b))%num.

(** [Array.prototype.sort] with a comparator: a stable sort, written as an
    insertion sort ([b] goes before [a] only when [cmp a b > 0]). *)
Fixpoint insertSorted {A : Type} (cmp : A -> A -> num) (x : A) (l : list A) : list A :=
  match l with
  | [] => [x]
  | y :: r => if (cmp x y >? zero)%num then y :: insertSorted cmp x r else x :: y :: r
  end.

Definition sortBy {A : Type} (cmp : A -> A -> num) (l : list A) : list A :=
  foldr (insertSorted cmp) [] l.

(** The filter of [matchTrades]: [order.fillPrice && order.placingTime]. *)
Definition hasPriceAndTime (order : Order) : bool :=
  truthyOpt (fillPrice order) && bool_decide (is_Some (placingTime order)).

Definition validOrders (orders : list Order) : list Order :=
  sortBy compareOrders (List.filter hasPriceAndTime orders).

(** The state of the matching loop: the trades pushed so far and the
    per-symbol queues of open lots. *)
Record MatchState : Type := mkMatchState {
  trades : list Trade;
  positions : gmap string (list Lot)
}.

Definition initialState : MatchState :=
  {| trades := []; positions := ∅ |}.

(** [positions[sym]], an empty queue when the symbol has none yet. *)
Definition queueOf (sym : string) (positions : gmap string (list Lot)) : list Lot :=
  default [] (positions !! sym).

Definition newLot (quantity : Z) (order : Order) : Lot :=
  {| lotQty := quantity; lotPrice := fillPrice order; lotOrder := order |}.

(** One iteration of [for (const order of validOrders)]. *)
Definition processOrder (st : MatchState) (order : Order) : MatchState :=
  if negb (String.eqb (status order) "Filled") then st
  else
    let sym := symbol order in
    let pos := queueOf sym (positions st) in
    match pos with
    | [] =>
        {| trades := trades st;
           positions := <[sym := [newLot (qty order) order]]> (positions st) |}
    | first :: _ =>
        let openSide := toLowerCase (side (lotOrder first)) in
        let isSameSide := String.eqb openSide (toLowerCase (side order)) in
        if isSameSide then
          {| trades := trades st;
             positions := <[sym := pos ++ [newLot (qty order) order]]> (positions st) |}
        else
          let '(closed, remainingQty, pos') := closeLots order (qty order) pos in
          let pos'' :=
            if 0 <? remainingQty then pos' ++ [newLot remainingQty order] else pos' in
          {| trades := trades st ++ closed;
             positions := <[sym := pos'']> (positions st) |}
    end.

Definition matchLoop (orders : list Order) : MatchState :=
  fold_left processOrder orders initialState.

Definition matchTrades (orders : list Order) : list Trade :=
  trades (matchLoop (validOrders orders)).

(** The queues [matchTrades] leaves behind (it only logs them). *)
Definition openPositions (orders : list Order) : gmap string (list Lot) :=
  positions (matchLoop (validOrders orders)).

(** [pos.reduce((s, l) => s + l.qty, 0)]: the unclosed quantity of a queue. *)
Definition unclosed (pos : list Lot) : Z :=
  fold_left (fun s l => s + lotQty l) pos 0.

(** *** Contract registry *)

Record ContractSpec : Type := mkSpec {
  multiplier : num;
  specCommission : num;
  specName : string
}.

Definition futures (m : num) (nm : string) : ContractSpec :=
  {| multiplier := m; specCommission := dec 250 2; specName := nm |}.

Definition micro (m : num) (nm : string) : ContractSpec :=
  {| multiplier := m; specCommission := dec 62 2; specName := nm |}.

Definition cfd (nm : string) : ContractSpec :=
  {| multiplier := ofZ 1; specCommission := zero; specName := nm |}.

Definition CONTRACT_SPECS : gmap string ContractSpec :=
  list_to_map
    [ ("ES1!", futures (ofZ 50) "E-mini S&P 500");
      ("MES1!", micro (ofZ 5) "Micro E-mini S&P 500");
      ("NQ1!", futures (ofZ 20) "E-mini Nasdaq-100");
      ("MNQ1!", micro (ofZ 2) "Micro E-mini Nasdaq-100");
      ("YM1!", futures (ofZ 5) "E-mini Dow");
      ("MYM1!", micro (dec 50 2) "Micro E-mini Dow");
      ("RTY1!", futures (ofZ 50) "E-mini Russell 2000");
      ("M2K1!", micro (ofZ 5) "Micro E-mini Russell 2000");
      ("CL1!", futures (ofZ 1000) "Crude Oil");
      ("MCL1!", micro (ofZ 100) "Micro Crude Oil");
      ("GC1!", futures (ofZ 100) "Gold");
      ("MGC1!", micro (ofZ 10) "Micro Gold");
      ("SI1!", futures (ofZ 5000) "Silver");
      ("NG1!", futures (ofZ 10000) "Natural Gas");
      ("ZB1!", futures (ofZ 1000) "30-Year T-Bond");
      ("ZN1!", futures (ofZ 1000) "10-Year T-Note");
      ("6E1!", futures (ofZ 125000) "Euro FX");
      ("6J1!", futures (ofZ 12500000) "Japanese Yen");
      ("ZC1!", futures (ofZ 50) "Corn");
      ("ZW1!", futures (ofZ 50) "Wheat");
      ("ZS1!", futures (ofZ 50) "Soybeans");
      ("HG1!", futures (ofZ 25000) "Copper");
      ("PL1!", futures (ofZ 50) "Platinum");
      ("6B1!", futures (ofZ 62500) "British Pound");
      ("6C1!", futures (ofZ 100000) "Canadian Dollar");
      ("6A1!", futures (ofZ 100000) "Australian Dollar");
      ("6S1!", futures (ofZ 125000) "Swiss Franc");
      ("6N1!", futures (ofZ 100000) "New Zealand Dollar");
      ("6M1!", futures (ofZ 500000) "Mexican Peso");
      ("SPXUSD", cfd "S&P 500 CFD");
      ("NAS100", cfd "Nasdaq 100 CFD");
      ("US30", cfd "Dow Jones CFD");
      ("US2000", cfd "Russell 2000 CFD");
      ("GER40", cfd "DAX 40 CFD");
      ("UK100", cfd "FTSE 100 CFD");
      ("FRA40", cfd "CAC 40 CFD");
      ("JPN225", cfd "Nikkei 225 CFD");
      ("HK50", cfd "Hang Seng CFD");
      ("AUS200", cfd "ASX 200 CFD");
      ("XAUUSD", cfd "Gold CFD");
      ("XAGUSD", cfd "Silver CFD");
      ("XPTUSD", cfd "Platinum CFD");
      ("USOIL", cfd "US Crude Oil CFD");
      ("UKOIL", cfd "Brent Oil CFD");
      ("NATGAS", cfd "Natural Gas CFD");
      ("EURUSD", cfd "EUR/USD");
      ("GBPUSD", cfd "GBP/USD");
      ("USDJPY", cfd "USD/JPY");
      ("USDCHF", cfd "USD/CHF");
      ("AUDUSD", cfd "AUD/USD");
      ("NZDUSD", cfd "NZD/USD");
      ("USDCAD", cfd "USD/CAD");
      ("USDEUR", cfd "USD/EUR");
      ("USDGBP", cfd "USD/GBP");
      ("JPYUSD", cfd "JPY/USD");
      ("EURGBP", cfd "EUR/GBP");
      ("EURJPY", cfd "EUR/JPY");
      ("EURCAD", cfd "EUR/CAD");
      ("EURCHF", cfd "EUR/CHF");
      ("EURAUD", cfd "EUR/AUD");
      ("EURNZD", cfd "EUR/NZD");
      ("GBPJPY", cfd "GBP/JPY");
      ("GBPCAD", cfd "GBP/CAD");
      ("GBPCHF", cfd "GBP/CHF");
      ("GBPAUD", cfd "GBP/AUD");
      ("GBPNZD", cfd "GBP/NZD");
      ("AUDJPY", cfd "AUD/JPY");
      ("AUDCAD", cfd "AUD/CAD");
      ("AUDCHF", cfd "AUD/CHF");
      ("AUDNZD", cfd "AUD/NZD");
      ("CADJPY", cfd "CAD/JPY");
      ("CHFJPY", cfd "CHF/JPY");
      ("NZDJPY", cfd "NZD/JPY");
      ("NZDCAD", cfd "NZD/CAD");
      ("NZDCHF", cfd "NZD/CHF");
      ("BTCUSD", cfd "Bitcoin CFD");
      ("ETHUSD", cfd "Ethereum CFD") ].

Definition DEFAULT_SPECS : ContractSpec :=
  {| multiplier := ofZ 1; specCommission := zero; specName := "Unknown" |}.

Definition getContractSpecs (symbolRaw : string) : ContractSpec :=
  if negb (nonEmpty symbolRaw) then DEFAULT_SPECS
  else
    let stripped := stripExchangePrefix symbolRaw in
    default DEFAULT_SPECS (CONTRACT_SPECS !! stripped).

(** *** Per-trade profit and loss *)

(** Truthiness of [o.originalQty] and [o.originalQty || quantity]. *)
Definition originalQtyOr (o : Order) (quantity : Z) : Z :=
  match originalQty o with
  | Some q => if q =? 0 then quantity else q
  | None => quantity
  end.

(** [(trade.entryOrder && trade.entryOrder.originalQty) || quantity]. *)
Definition referenceQty (trade : Trade) : Z :=
  match entryOrder trade with
  | Some o => originalQtyOr o (quantity trade)
  | None => quantity trade
  end.

(** The multiplier derived from margin and leverage, when the correction of
    [calculateTrade] applies; [None] when the registry multiplier stands. *)
Definition derivedMultiplier (trade : Trade) (specs : ContractSpec) : option num :=
  if (tradeMargin trade >? zero)%num && nonEmpty (tradeLeverage trade) then
    match firstDigitRun (tradeLeverage trade) with
    | Some digits =>
        let levVal := ofZ (digitsVal 0 digits) in
        let refQty := ofZ (referenceQty trade) in
        let entryPrice := toNumber (entryPrice trade) in
        if (levVal >? zero)%num && (refQty >? zero)%num && (entryPrice >? zero)%num then
          let derived := ((tradeMargin trade * levVal) / (refQty * entryPrice))%num in
          let specMult := orElse (multiplier specs) (ofZ 1) in
          if (abs (derived - specMult) / specMult >? dec 1 1)%num then Some derived
          else None
        else None
    | None => None
    end
  else None.

Definition effectiveMultiplier (trade : Trade) (specs : ContractSpec) : num :=
  default (multiplier specs) (derivedMultiplier trade specs).

(** [parseFloat(order?.commission) || 0]. *)
Definition commissionNum (o : option Order) : num :=
  match o with
  | Some o => match commission o with
              | Some c => orElse c zero
              | None => zero
              end
  | None => zero
  end.

(** [entryOrder && entryOrder.commission !== undefined]. *)
Definition hasCommissionField (o : option Order) : bool :=
  match o with
  | Some o => bool_decide (is_Some (commission o))
  | None => false
  end.

Definition usesOrderCommission (trade : Trade) : bool :=
  hasCommissionField (entryOrder trade)
  && ((commissionNum (entryOrder trade) >? zero)
      || (commissionNum (exitOrder trade) >? zero))%num.

Definition origEntryQty (trade : Trade) : Z :=
  match entryOrder trade with
  | Some o => originalQtyOr o (quantity trade)
  | None => quantity trade
  end.

Definition origExitQty (trade : Trade) : Z :=
  match exitOrder trade with
  | Some o => originalQtyOr o (quantity trade)
  | None => quantity trade
  end.

Definition tradeCommission (trade : Trade) (specs : ContractSpec) : num :=
  let quantity := ofZ (quantity trade) in
  if usesOrderCommission trade then
    (commissionNum (entryOrder trade) * (quantity / ofZ (origEntryQty trade))
     + commissionNum (exitOrder trade) * (quantity / ofZ (origExitQty trade)))%num
  else (specCommission specs * ofZ 2 * quantity)%num.

(** [trade.side || 'LONG']. *)
Definition sideOrLong (trade : Trade) : string := orStr (tradeSide trade) "LONG".

Definition pointDifferenceOf (trade : Trade) : num :=
  if String.eqb (sideOrLong trade) "SHORT"
  then (toNumber (entryPrice trade) - toNumber (exitPrice trade))%num
  else (toNumber (exitPrice trade) - toNumber (entryPrice trade))%num.

(** [calculateTrade]; [None] is the [TypeError] thrown by
    [trade.entryOrder.orderId] or [trade.exitOrder.orderId] on a trade that
    lacks one of its orders. *)
Definition calculateTrade (trade : Trade) : option Trade :=
  let specs := getContractSpecs (contract trade) in
  let pointDifference := pointDifferenceOf trade in
  let grossProfit :=
    (pointDifference * ofZ (quantity trade) * effectiveMultiplier trade specs)%num in
  let totalCommission := tradeCommission trade specs in
  let netProfit := (grossProfit - totalCommission)%num in
  let isWin := (netProfit >? zero)%num in
  match entryOrder trade, exitOrder trade with
  | Some entry, Some exit =>
      Some {| tradeId := tradeId trade;
              entryOrder := Some entry;
              exitOrder := Some exit;
              entryPrice := entryPrice trade;
              exitPrice := exitPrice trade;
              quantity := quantity trade;
              entryTime := entryTime trade;
              exitTime := exitTime trade;
              contract := orStr (orStr (contract trade) (symbol entry)) "Unknown";
              tradeSymbol := tradeSymbol trade;
              tradeSide := sideOrLong trade;
              tradeMargin := orElse (tradeMargin trade) zero;
              tradeLeverage := tradeLeverage trade;
              tradeBroker := orStr (tradeBroker trade) (broker entry);
              pointDifference := pointDifference;
              grossProfit := grossProfit;
              totalCommission := totalCommission;
              netProfit := netProfit;
              returnValue := round netProfit;
              tradeStatus := if isWin then "WIN" else "LOSE";
              isWin := isWin;
              entryOrderId := orderId entry;
              exitOrderId := orderId exit;
              allOrderIds := allOrderIds trade |}
  | _, _ => None
  end.

(** [processOrders] runs the matcher and prices every trade; an exception of
    [calculateTrade] aborts the whole call. *)
Definition processOrders (orders : list Order) : option (list Trade) :=
  mapM calculateTrade (matchTrades orders).

(** *** Summary statistics *)

Record DateRange : Type := mkDateRange {
  rangeStart : Z;
  rangeEnd : Z
}.

Record Summary : Type := mkSummary {
  totalTrades : nat;
  totalProfit : num;
  totalGrossProfit : num;
  summaryCommission : num;
  winCount : nat;
  lossCount : nat;
  winRate : num;
  bestTrade : num;
  worstTrade : num;
  averageProfit : num;
  averageWin : num;
  averageLoss : num;
  profitFactor : num;
  sharpeRatio : num;
  maxDrawdown : num;
  consecutiveWins : nat;
  consecutiveLosses : nat;
  dateRange : option DateRange
}.

Definition getEmptySummary : Summary :=
  {| totalTrades := 0; totalProfit := zero; totalGrossProfit := zero;
     summaryCommission := zero; winCount := 0; lossCount := 0; winRate := zero;
     bestTrade := zero; worstTrade := zero; averageProfit := zero;
     averageWin := zero; averageLoss := zero; profitFactor := zero;
     sharpeRatio := zero; maxDrawdown := zero; consecutiveWins := 0;
     consecutiveLosses := 0; dateRange := None |}.

(** [xs.reduce((sum, x) => sum + f(x), 0)]. *)
Definition sumOf {A : Type} (f : A -> num) (xs : list A) : num :=
  fold_left (fun sum x => (sum + f x)%num) xs zero.

Definition count (n : nat) : num := ofZ (Z.of_nat n).

(** Calculate profit factor (gross profit / gross loss). *)
Definition calculateProfitFactor (winningTrades losingTrades : list Trade) : num :=
  let grossWin := sumOf netProfit winningTrades in
  let grossLoss := abs (sumOf netProfit losingTrades) in
  if (grossLoss >? zero)%num then (grossWin / grossLoss)%num
  else if (grossWin >? zero)%num then PosInf else zero.

Definition calculateMaxDrawdown (trades : list Trade) : num :=
  let step (acc : num * num * num) (trade : Trade) :=
    let '(runningTotal, peak, maxDrawdown) := acc in
    let runningTotal := (runningTotal + netProfit trade)%num in
    let peak := if (runningTotal >? peak)%num then runningTotal else peak in
    let drawdown := (peak - runningTotal)%num in
    let maxDrawdown := if (drawdown >? maxDrawdown)%num then drawdown else maxDrawdown in
    (runningTotal, peak, maxDrawdown) in
  snd (fold_left step trades (zero, zero, zero)).

Definition getMaxConsecutive (trades : list Trade) (win : bool) : nat :=
  let step (acc : nat * nat) (trade : Trade) :=
    let '(maxConsecutive, currentConsecutive) := acc in
    if Bool.eqb (isWin trade) win then
      let currentConsecutive := S currentConsecutive in
      (Nat.max maxConsecutive currentConsecutive, currentConsecutive)
    else (maxConsecutive, 0%nat) in
  fst (fold_left step trades (0%nat, 0%nat)).

Definition getDateRange (trades : list Trade) : option DateRange :=
  match trades with
  | [] => None
  | _ =>
      let dates := sortBy (fun a b => ofZ (a - b)) (omap entryTime trades) in
      match dates with
      | [] => None
      | first :: _ => Some {| rangeStart := first; rangeEnd := List.last dates first |}
      end
  end.

Section Summary.

(** [Math.sqrt] is not a rational function; the summary is stated for any
    reading of it. *)
Variable sqrt : num -> num.

Definition calculateSharpeRatio (profits : list num) : num :=
  if (length profits <? 2)%nat then zero
  else
    let n := count (length profits) in
    let mean := (sumOf (fun p => p) profits / n)%num in
    let variance :=
      (sumOf (fun p => (p - mean) * (p - mean)) profits / n)%num in
    let standardDeviation := sqrt variance in
    if (standardDeviation >? zero)%num then (mean / standardDeviation)%num else zero.

Definition generateSummary (trades : list Trade) : Summary :=
  match trades with
  | [] => getEmptySummary
  | _ =>
      let n := length trades in
      let totalProfit := sumOf netProfit trades in
      let winningTrades := List.filter isWin trades in
      let losingTrades := List.filter (fun trade => negb (isWin trade)) trades in
      let winCount := length winningTrades in
      let lossCount := length losingTrades in
      let profits := map netProfit trades in
      {| totalTrades := n;
         totalProfit := totalProfit;
         totalGrossProfit := sumOf grossProfit trades;
         summaryCommission := sumOf totalCommission trades;
         winCount := winCount;
         lossCount := lossCount;
         winRate := (count winCount / count n * ofZ 100)%num;
         bestTrade := fold_left max profits NegInf;
         worstTrade := fold_left min profits PosInf;
         averageProfit := (totalProfit / count n)%num;
         averageWin :=
           if (0 <? winCount)%nat then (sumOf netProfit winningTrades / count winCount)%num
           else zero;
         averageLoss :=
           if (0 <? lossCount)%nat then (sumOf netProfit losingTrades / count lossCount)%num
           else zero;
         profitFactor := calculateProfitFactor winningTrades losingTrades;
         sharpeRatio := calculateSharpeRatio profits;
         maxDrawdown := calculateMaxDrawdown trades;
         consecutiveWins := getMaxConsecutive trades true;
         consecutiveLosses := getMaxConsecutive trades false;
         dateRange := getDateRange trades |}
  end.

End Summary.

End TradeCalculator.

Import TradeCalculator.

(** ** TradleApp: the persistent trade database and its merge *)

(** Truthiness of a possibly-undefined string. *)
Definition truthyStr (o : option string) : bool :=
  match o with
  | Some s => nonEmpty s
  | None => false
  end.

(** The truthy strings among some properties, in order. *)
Definition truthyIds (os : list (option string)) : list string :=
  omap (fun o => if truthyStr o then o else None) os.

(** [[...new Set(xs)]]: drop repeated elements, keeping first occurrences. *)
Fixpoint uniqueFrom (seen : list string) (xs : list string) : list string :=
  match xs with
  | [] => []
  | x :: r =>
      if bool_decide (x ∈ seen) then uniqueFrom seen r
      else x :: uniqueFrom (x :: seen) r
  end.

Definition unique (xs : list string) : list string := uniqueFrom [] xs.

Module TradleApp.

Record TradeDatabase : Type := mkDatabase {
  dbTrades : list Trade;
  orderIds : gset string
}.

Definition emptyDatabase : TradeDatabase :=
  {| dbTrades := []; orderIds := ∅ |}.

(** Priority 2 of [extractTradeOrderIds]: the nested order objects. *)
Definition nestedOrderIds (trade : Trade) : list string :=
  truthyIds [ entryOrder trade ≫= orderId; exitOrder trade ≫= orderId ].

(** Priority 3: the parts of an id of the form [trade_{entry}_{exit}]. *)
Definition idParts (trade : Trade) : list string :=
  match tradeId trade with
  | Some id =>
      if nonEmpty id && startsWith "trade_" id then
        List.filter
          (fun part => nonEmpty part && negb (String.eqb part "undefined")
                       && negb (String.eqb part "null"))
          (split "_" (String.substring 6 (String.length id - 6) id))
      else []
  | None => []
  end.

(** Priority 4: orders within 60 seconds and 0.01 of the entry or the exit. *)
Definition near (orderTime : Z) (orderPrice : num) (time : option Z) (price : option num) : bool :=
  (abs (ofZ (orderTime - timeValue time)) <? ofZ 60000)%num
  && (abs (orderPrice - toNumber price) <? dec 1 2)%num.

Definition fuzzyOrderIds (trade : Trade) (orders : list Order) : list string :=
  omap
    (fun order =>
       match orderId order, placingTime order, fillPrice order with
       | Some oid, Some orderTime, Some orderPrice =>
           if nonEmpty oid && truthy orderPrice then
             if near orderTime orderPrice (entryTime trade) (entryPrice trade) then Some oid
             else if near orderTime orderPrice (exitTime trade) (exitPrice trade) then Some oid
             else None
           else None
       | _, _, _ => None
       end)
    orders.

(** [a] when it is not empty, else [b]: the guard [orderIds.length === 0]. *)
Definition orIfEmpty (a b : list string) : list string :=
  match a with
  | [] => b
  | _ => a
  end.

Definition extractTradeOrderIds (trade : Trade) (orders : list Order) : list string :=
  let direct := truthyIds [entryOrderId trade; exitOrderId trade] in
  unique
    (orIfEmpty (orIfEmpty (orIfEmpty direct (nestedOrderIds trade)) (idParts trade))
               (fuzzyOrderIds trade orders)).

Definition withId (trade : Trade) (id : string) : Trade :=
  {| tradeId := Some id;
     entryOrder := entryOrder trade; exitOrder := exitOrder trade;
     entryPrice := entryPrice trade; exitPrice := exitPrice trade;
     quantity := quantity trade; entryTime := entryTime trade;
     exitTime := exitTime trade; contract := contract trade;
     tradeSymbol := tradeSymbol trade; tradeSide := tradeSide trade;
     tradeMargin := tradeMargin trade; tradeLeverage := tradeLeverage trade;
     tradeBroker := tradeBroker trade; pointDifference := pointDifference trade;
     grossProfit := grossProfit trade; totalCommission := totalCommission trade;
     netProfit := netProfit trade; returnValue := returnValue trade;
     tradeStatus := tradeStatus trade; isWin := isWin trade;
     entryOrderId := entryOrderId trade; exitOrderId := exitOrderId trade;
     allOrderIds := allOrderIds trade |}.

Definition withOrderIds (trade : Trade) (id : string) (ids : list string) : Trade :=
  {| tradeId := Some id;
     entryOrder := entryOrder trade; exitOrder := exitOrder trade;
     entryPrice := entryPrice trade; exitPrice := exitPrice trade;
     quantity := quantity trade; entryTime := entryTime trade;
     exitTime := exitTime trade; contract := contract trade;
     tradeSymbol := tradeSymbol trade; tradeSide := tradeSide trade;
     tradeMargin := tradeMargin trade; tradeLeverage := tradeLeverage trade;
     tradeBroker := tradeBroker trade; pointDifference := pointDifference trade;
     grossProfit := grossProfit trade; totalCommission := totalCommission trade;
     netProfit := netProfit trade; returnValue := returnValue trade;
     tradeStatus := tradeStatus trade; isWin := isWin trade;
     entryOrderId := ids !! 0%nat; exitOrderId := ids !! 1%nat;
     allOrderIds := ids |}.

(** The running state of [mergeTradesWithDatabase]: the database it mutates,
    its counters, and how many ids [generateTradeId] has handed out. *)
Record MergeState : Type := mkMergeState {
  database : TradeDatabase;
  newTradeCount : nat;
  duplicateCount : nat;
  addedTrades : list Trade;
  generated : nat
}.

Section Merge.

(** [generateTradeId] reads the clock and [Math.random]; the [n]-th id it
    returns during one merge is [generateTradeId n]. *)
Variable generateTradeId : nat -> string.

Definition keepsId (trade : Trade) : bool :=
  match tradeId trade with
  | Some id => nonEmpty id && startsWith "trade_" id && negb (includes "_undefined" id)
  | None => false
  end.

(** The body of [newTrades.forEach]. *)
Definition mergeTrade (newOrders : list Order) (st : MergeState) (trade : Trade) : MergeState :=
  let db := database st in
  let tradeOrderIds := extractTradeOrderIds trade newOrders in
  match tradeOrderIds with
  | [] =>
      let enhancedTrade := withId trade (generateTradeId (generated st)) in
      {| database := {| dbTrades := dbTrades db ++ [enhancedTrade]; orderIds := orderIds db |};
         newTradeCount := S (newTradeCount st);
         duplicateCount := duplicateCount st;
         addedTrades := addedTrades st ++ [enhancedTrade];
         generated := S (generated st) |}
  | _ =>
      let hasExistingOrderId :=
        existsb (fun orderId => bool_decide (orderId ∈ orderIds db)) tradeOrderIds in
      if hasExistingOrderId then
        {| database := db;
           newTradeCount := newTradeCount st;
           duplicateCount := S (duplicateCount st);
           addedTrades := addedTrades st;
           generated := generated st |}
      else
        let tradeId := if keepsId trade then default "" (tradeId trade)
                       else generateTradeId (generated st) in
        let enhancedTrade := withOrderIds trade tradeId tradeOrderIds in
        {| database := {| dbTrades := dbTrades db ++ [enhancedTrade];
                          orderIds := orderIds db ∪ list_to_set tradeOrderIds |};
           newTradeCount := S (newTradeCount st);
           duplicateCount := duplicateCount st;
           addedTrades := addedTrades st ++ [enhancedTrade];
           generated := if keepsId trade then generated st else S (generated st) |}
  end.

Definition mergeTradesWithDatabase (db : TradeDatabase) (newTrades : list Trade)
    (newOrders : list Order) : MergeState :=
  fold_left (mergeTrade newOrders) newTrades
    {| database := db; newTradeCount := 0; duplicateCount := 0;
       addedTrades := []; generated := 0 |}.

End Merge.

End TradleApp.

(** ** FirebaseSync: merging the remote trade database by fingerprint *)

#[global] Instance Q_eq_dec : EqDecision Q.
Proof. solve_decision. Defined.

#[global] Instance num_eq_dec : EqDecision num.
Proof. solve_decision. Defined.

#[global] Instance Q_countable : Countable Q :=
  inj_countable' (fun q => (Qnum q, Qden q)) (fun p => Qmake p.1 p.2)
    (fun q => match q with Qmake _ _ => eq_refl end).

#[global] Instance num_countable : Countable num :=
  inj_countable'
    (fun x => match x with
              | NaN => inl 0%nat
              | NegInf => inl 1%nat
              | PosInf => inl 2%nat
              | Fin q => inr q
              end)
    (fun s => match s with
              | inl 0%nat => NaN
              | inl 1%nat => NegInf
              | inl _ => PosInf
              | inr q => Fin q
              end)
    (fun x => match x with
              | NaN | NegInf | PosInf | Fin _ => eq_refl
              end).

Module FirebaseSync.

(** The fingerprint string
    [`${sym}_${eTime}_${xTime}_${ePrice}_${xPrice}`], kept as the tuple of its
    five parts: [sym] is alphanumeric and a printed number has no underscore,
    so two strings are equal exactly when their parts are. *)
Definition Fingerprint : Type := string * Z * Z * num * num.

Definition isAlnum (c : ascii) : bool := isUpper c || isLower c || isDigit c.

(** [Math.round((price || 0) * 100)]. *)
Definition cents (price : option num) : num :=
  round (orElse (toNumber price) zero * ofZ 100)%num.

Definition fingerprint (t : Trade) : Fingerprint :=
  let sym := keep isAlnum (orStr (contract t) (tradeSymbol t)) in
  let eTime := timeValue (entryTime t) in
  let xTime := timeValue (exitTime t) in
  (sym, eTime, xTime, cents (entryPrice t), cents (exitPrice t)).

(** [[t.entryOrderId, t.exitOrderId, ...(t.allOrderIds || [])].filter(Boolean)]. *)
Definition trackedOrderIds (t : Trade) : list string :=
  truthyIds ([entryOrderId t; exitOrderId t] ++ map Some (allOrderIds t)).

(** The three look-up sets of [pullTradeDatabase] and the local trade list. *)
Record PullState : Type := mkPullState {
  localTrades : list Trade;
  localIds : gset string;
  localOrderIds : gset string;
  localFingerprints : gset Fingerprint;
  merged : nat
}.

(** The sets as they are built from the local trades before the loop. *)
Definition tradeIdSet (t : Trade) : gset string :=
  match tradeId t with
  | Some id => if nonEmpty id then {[ id ]} else ∅
  | None => ∅
  end.

Definition initialPullState (localTrades : list Trade) : PullState :=
  {| localTrades := localTrades;
     localIds := ⋃ (map tradeIdSet localTrades);
     localOrderIds := ⋃ (map (fun t => list_to_set (trackedOrderIds t)) localTrades);
     localFingerprints := list_to_set (map fingerprint localTrades);
     merged := 0 |}.

(** The body of [for (const trade of remote.trades)].  An id that is missing
    or empty is never looked up, so adding it to [localIds] is not recorded. *)
Definition pullTrade (st : PullState) (trade : Trade) : PullState :=
  if truthyStr (tradeId trade) && bool_decide (default "" (tradeId trade) ∈ localIds st)
  then st
  else
    let tradeOrderIds := trackedOrderIds trade in
    if existsb (fun oid => bool_decide (oid ∈ localOrderIds st)) tradeOrderIds then st
    else
      let fp := fingerprint trade in
      if bool_decide (fp ∈ localFingerprints st) then st
      else
        {| localTrades := localTrades st ++ [trade];
           localIds := localIds st ∪ tradeIdSet trade;
           localOrderIds := localOrderIds st ∪ list_to_set tradeOrderIds;
           localFingerprints := localFingerprints st ∪ {[ fp ]};
           merged := S (merged st) |}.

(** [pullTradeDatabase], between its fetch of the remote trades and its
    write to local storage: the remote trades folded into the local ones. *)
Definition pullTradeDatabase (localTrades remoteTrades : list Trade) : PullState :=
  fold_left pullTrade remoteTrades (initialPullState localTrades).

End FirebaseSync.

(** ** CSVParser: the validation of parsed orders *)

Module CSVParser.

(** [validateOrder]: the test an order passes to be handed to the
    calculator.  The fill price and the placing time are compared with
    [null]. *)
Definition validateOrder (order : Order) : bool :=
  nonEmpty (symbol order)
  && nonEmpty (side order)
  && bool_decide (is_Some (fillPrice order))
  && (0 <? qty order)
  && bool_decide (is_Some (placingTime order))
  && String.eqb (status order) "Filled".

End CSVParser.

(** ** The arithmetic of the worked examples in binary64 *)

(** JavaScript computes in IEEE-754 binary64.  The formulas of
    [calculateTrade] are repeated here over primitive floats, to check that
    the figures of the worked examples are what a JavaScript engine
    computes, rounding included. *)
Module Binary64.

Definition grossProfit (entryPrice exitPrice quantity multiplier : float) : float :=
  PrimFloat.mul (PrimFloat.mul (PrimFloat.sub exitPrice entryPrice) quantity) multiplier.

Definition registryCommission (perSide quantity : float) : float :=
  PrimFloat.mul (PrimFloat.mul perSide 2%float) quantity.

Definition share (commission quantity originalQty : float) : float :=
  PrimFloat.mul commission (PrimFloat.div quantity originalQty).

End Binary64.

(** ** Vocabulary of the properties *)

(** The closing loop as a relation: the quantity and the queue it is given,
    the trades it pushes, and the quantity and the queue it leaves. *)
Inductive Closes (order : Order) : Z -> list Lot -> list Trade -> Z -> list Lot -> Prop :=
| closes_done remainingQty pos :
    remainingQty <= 0 ->
    Closes order remainingQty pos [] remainingQty pos
| closes_empty remainingQty :
    0 < remainingQty ->
    Closes order remainingQty [] [] remainingQty []
| closes_shift remainingQty lot rest closed remaining' pos' :
    0 < remainingQty -> lotQty lot <= remainingQty ->
    Closes order (remainingQty - lotQty lot) rest closed remaining' pos' ->
    Closes order remainingQty (lot :: rest)
      (closingTrade lot order (lotQty lot) :: closed) remaining' pos'
| closes_partial remainingQty lot rest :
    0 < remainingQty -> remainingQty < lotQty lot ->
    Closes order remainingQty (lot :: rest)
      [closingTrade lot order remainingQty] 0 (lotMinus lot remainingQty :: rest).

(** Two orders are on the same side, whatever the case of the word. *)
Definition sameSide (a b : Order) : Prop :=
  toLowerCase (side a) = toLowerCase (side b).

(** One iteration of the loop of [matchTrades], as a relation. *)
Inductive Step (st : MatchState) (order : Order) : MatchState -> Prop :=
| step_skip :
    status order <> "Filled" ->
    Step st order st
| step_open :
    status order = "Filled" ->
    queueOf (symbol order) (positions st) = [] ->
    Step st order
      {| trades := trades st;
         positions := <[symbol order := [newLot (qty order) order]]> (positions st) |}
| step_scale first rest :
    status order = "Filled" ->
    queueOf (symbol order) (positions st) = first :: rest ->
    sameSide (lotOrder first) order ->
    Step st order
      {| trades := trades st;
         positions :=
           <[symbol order := (first :: rest) ++ [newLot (qty order) order]]> (positions st) |}
| step_close first rest closed remainingQty pos' :
    status order = "Filled" ->
    queueOf (symbol order) (positions st) = first :: rest ->
    ~ sameSide (lotOrder first) order ->
    Closes order (qty order) (first :: rest) closed remainingQty pos' ->
    Step st order
      {| trades := trades st ++ closed;
         positions :=
           <[symbol order :=
               if 0 <? remainingQty then pos' ++ [newLot remainingQty order] else pos']>
             (positions st) |}.

(** The sort key of an order, and the order it induces on a stream. *)
Definition timeOf (o : Order) : Z := timeValue (placingTime o).

Definition notLater (a b : Order) : Prop := timeOf a <= timeOf b.

(** [a] is not placed after [b] by the comparator of the sort. *)
Definition inOrder (a b : Order) : Prop :=
  (compareOrders a b >? zero)%num = false.

(** The fill price of an order is a number (not NaN). *)
Definition pricedOrder (o : Order) : Prop := toNumber (fillPrice o) <> NaN.

(** An order takes part in matching when it passes the filter of
    [matchTrades] and the status test of its loop. *)
Definition participates (o : Order) : bool :=
  hasPriceAndTime o && String.eqb (status o) "Filled".

(** [entry] comes before [exit] in a stream of orders. *)
Definition precedes (stream : list Order) (entry exit : Order) : Prop :=
  exists before between after, stream = before ++ entry :: between ++ exit :: after.

(** A trade pairs an entry with a later exit of the same symbol and the
    other side, both filled, each copied with the quantity closed. *)
Definition Pairing (stream : list Order) (t : Trade) : Prop :=
  exists entry exit,
    precedes stream entry exit
    /\ status entry = "Filled" /\ status exit = "Filled"
    /\ symbol entry = symbol exit
    /\ ~ sameSide entry exit
    /\ t = createTradeObject (orderCopy entry (quantity t)) (orderCopy exit (quantity t)).

(** Every lot of a queue keeps the order that opened it: an order already
    seen, filled, of the queue's symbol. *)
Definition LotsFrom (seen : list Order) (st : MatchState) : Prop :=
  forall sym lot,
    lot ∈ queueOf sym (positions st) ->
    lotOrder lot ∈ seen /\ symbol (lotOrder lot) = sym /\ status (lotOrder lot) = "Filled".

(** All lots of one queue were opened from the same side. *)
Definition OneSided (st : MatchState) : Prop :=
  forall sym a b,
    a ∈ queueOf sym (positions st) -> b ∈ queueOf sym (positions st) ->
    sameSide (lotOrder a) (lotOrder b).

(** The three together: where every lot and every trade comes from. *)
Definition Provenance (seen : list Order) (st : MatchState) : Prop :=
  LotsFrom seen st /\ OneSided st /\ forall t, t ∈ trades st -> Pairing seen t.







(** [o] is a filled order of [quantity] at [price], placed at [time]. *)
Definition isFill (o : Order) (sym sd : string) (quantity price time : Z) : Prop :=
  symbol o = sym /\ toLowerCase (side o) = sd /\ qty o = quantity
  /\ fillPrice o = Some (ofZ price) /\ placingTime o = Some time
  /\ status o = "Filled".


(** The round-trip commission at the registry's per-side rate. *)
Definition registryCommission (trade : Trade) : num :=
  (specCommission (getContractSpecs (contract trade)) * ofZ 2 * ofZ (quantity trade))%num.

(** A number that is zero or more, possibly infinite. *)
Definition nonNegative (x : num) : Prop :=
  match x with
  | PosInf => True
  | Fin q => (0 <= q)%Q
  | _ => False
  end.

(** A trade has no resolvable order id when [extractTradeOrderIds] returns
    nothing for it. *)
Definition unidentified (orders : list Order) (trade : Trade) : bool :=
  match TradleApp.extractTradeOrderIds trade orders with
  | [] => true
  | _ => false
  end.

(** The look-up sets of a pull agree with its list of local trades. *)
Definition InSync (st : FirebaseSync.PullState) : Prop :=
  let fresh := FirebaseSync.initialPullState (FirebaseSync.localTrades st) in
  FirebaseSync.localIds st = FirebaseSync.localIds fresh
  /\ FirebaseSync.localOrderIds st = FirebaseSync.localOrderIds fresh
  /\ FirebaseSync.localFingerprints st = FirebaseSync.localFingerprints fresh.

(** A remote trade is recognised by a pull state when one of its three
    tests finds it: its id, one of its order ids, or its fingerprint. *)
Definition recognised (st : FirebaseSync.PullState) (trade : Trade) : bool :=
  (truthyStr (tradeId trade)
   && bool_decide (default "" (tradeId trade) ∈ FirebaseSync.localIds st))
  || existsb (fun oid => bool_decide (oid ∈ FirebaseSync.localOrderIds st))
       (FirebaseSync.trackedOrderIds trade)
  || bool_decide (FirebaseSync.fingerprint trade ∈ FirebaseSync.localFingerprints st).

(** ** Sample data *)

(** Sample data: a filled market order as the TradingView parser builds it. *)
Definition sampleOrder (sym sd : string) (quantity price time : Z) (oid : string) : Order :=
  {| symbol := sym; side := sd; orderType := "Market"; qty := quantity;
     fillPrice := Some (ofZ price); status := "Filled"; commission := Some NaN;
     placingTime := Some time; orderId := Some oid; leverage := ""; margin := "";
     broker := "TradingView"; originalQty := None |}.

(** Sell 5 @ 100, then Buy 2 @ 101, Buy 2 @ 102, Buy 1 @ 103. *)
Definition referenceStream : list Order :=
  [ sampleOrder "CME_MINI:ES1!" "Sell" 5 100 1000 "1001";
    sampleOrder "CME_MINI:ES1!" "Buy" 2 101 2000 "1002";
    sampleOrder "CME_MINI:ES1!" "Buy" 2 102 3000 "1003";
    sampleOrder "CME_MINI:ES1!" "Buy" 1 103 4000 "1004" ].

(** The last trade of the reference stream: the entry "1001" closed by the
    exit "1004", two other orders apart. *)
Definition referenceLastTrade : Trade :=
  createTradeObject
    (orderCopy (sampleOrder "CME_MINI:ES1!" "Sell" 5 100 1000 "1001") 1)
    (orderCopy (sampleOrder "CME_MINI:ES1!" "Buy" 1 103 4000 "1004") 1).

(** Sample data: a filled buy at a fill price of 0, then a filled sell. *)
Definition zeroPriceStream : list Order :=
  [ sampleOrder "NAS100" "Buy" 1 0 1000 "2001";
    sampleOrder "NAS100" "Sell" 1 5 2000 "2002" ].

(** The same stream with the buy filled at 1 instead. *)
Definition unitPriceStream : list Order :=
  [ sampleOrder "NAS100" "Buy" 1 1 1000 "2001";
    sampleOrder "NAS100" "Sell" 1 5 2000 "2002" ].

(** Sample data: a round trip on the E-mini S&P 500, bought at 6970.75 and
    sold at 6976.75, five contracts, with blank CSV commissions. *)
Definition roundTripOrders : list Order :=
  [ {| symbol := "CME_MINI:ES1!"; side := "Buy"; orderType := "Limit"; qty := 5;
       fillPrice := Some (dec 697075 2); status := "Filled"; commission := Some NaN;
       placingTime := Some 1770739200000; orderId := Some "2749607594";
       leverage := ""; margin := ""; broker := "TradingView"; originalQty := None |};
    {| symbol := "CME_MINI:ES1!"; side := "Sell"; orderType := "Market"; qty := 5;
       fillPrice := Some (dec 697675 2); status := "Filled"; commission := Some NaN;
       placingTime := Some 1770739500000; orderId := Some "2749621212";
       leverage := ""; margin := ""; broker := "TradingView"; originalQty := None |} ].

(** Sample data: the same round trip from an export without an Order ID
    column, where the parser leaves every [orderId] empty. *)
Definition anonymousOrders : list Order :=
  map (fun o =>
         {| symbol := symbol o; side := side o; orderType := orderType o; qty := qty o;
            fillPrice := fillPrice o; status := status o; commission := commission o;
            placingTime := placingTime o; orderId := Some ""; leverage := leverage o;
            margin := margin o; broker := broker o; originalQty := originalQty o |})
      roundTripOrders.



(** Sample data: a trade that carries no order id of any kind (no
    [entryOrderId]/[exitOrderId], no nested orders, no structured id). *)
Definition bareTrade (sym : string) (quantity : Z) : Trade :=
  {| tradeId := None; entryOrder := None; exitOrder := None;
     entryPrice := Some (dec 698775 2); exitPrice := Some (dec 698850 2);
     quantity := quantity;
     entryTime := Some 1770737400000; exitTime := Some 1770737700000;
     contract := sym; tradeSymbol := ""; tradeSide := "LONG";
     tradeMargin := zero; tradeLeverage := ""; tradeBroker := "";
     pointDifference := dec 75 2; grossProfit := ofZ 0; totalCommission := ofZ 0;
     netProfit := ofZ 0; returnValue := ofZ 0; tradeStatus := "LOSE"; isWin := false;
     entryOrderId := None; exitOrderId := None; allOrderIds := [] |}.

(** Sample data: two trades without order ids that agree on symbol, times
    and prices, and differ in quantity only. *)
Definition twinTrades : list Trade := [bareTrade "ES1!" 5; bareTrade "ES1!" 3].

(** Sample data: the two trades of the repository's storage test, which
    carry their order ids ([mockTrades]). *)
Definition mockTrade (entryId exitId : string) (entry exit : num) (quantity : Z)
    (entryAt exitAt : Z) (net : num) : Trade :=
  {| tradeId := Some ("trade_" +:+ entryId +:+ "_" +:+ exitId);
     entryOrder := None; exitOrder := None;
     entryPrice := Some entry; exitPrice := Some exit; quantity := quantity;
     entryTime := Some entryAt; exitTime := Some exitAt;
     contract := "CME_MINI:ES1!"; tradeSymbol := ""; tradeSide := "";
     tradeMargin := NaN; tradeLeverage := ""; tradeBroker := "";
     pointDifference := NaN; grossProfit := NaN; totalCommission := NaN;
     netProfit := net; returnValue := NaN; tradeStatus := "WIN"; isWin := false;
     entryOrderId := Some entryId; exitOrderId := Some exitId; allOrderIds := [] |}.

Definition mockTrades : list Trade :=
  [ mockTrade "ORD_12345" "ORD_12346" (dec 698775 2) (dec 698850 2) 5
      1770737400000 1770737700000 (ofZ 185);
    mockTrade "ORD_12347" "ORD_12348" (dec 699025 2) (ofZ 6991) 3
      1770739200000 1770739500000 (dec 1125 1) ].

(** A reading of [generateTradeId] for the examples. *)
Definition sampleIds (n : nat) : string :=
  "trade_1770740000000_" +:+ String (ascii_of_nat (97 + n)) "".

(** * Properties *)

(** ** The closing loop *)

(** On an empty queue the loop does nothing. *)
Lemma closeLots_nil (order : Order) (remainingQty : Z) :
  closeLots order remainingQty [] = ([], remainingQty, []).
Proof. now simp closeLots. Qed.

(** Rewrite with the outcomes of the loop's tests that are at hand. *)
Ltac rewrite_tests :=
  repeat match goal with
         | H : (_ <? _) = _ |- _ => rewrite H
         | H : (_ <=? _) = _ |- _ => rewrite H
         end.

(** The loop unfolded once: its test, one iteration, and the loop again. *)
Lemma closeLots_cons (order : Order) (remainingQty : Z) (lot : Lot) (rest : list Lot) :
  closeLots order remainingQty (lot :: rest) =
  if 0 <? remainingQty then
    let closeQty := Z.min remainingQty (lotQty lot) in
    let '(closed, remaining', pos') :=
      closeLots order (remainingQty - closeQty)
        (if lotQty lot - closeQty <=? 0 then rest else lotMinus lot closeQty :: rest) in
    (closingTrade lot order closeQty :: closed, remaining', pos')
  else ([], remainingQty, lot :: rest).
Proof.
  remember (lot :: rest) as pos eqn:E.
  funelim (closeLots order remainingQty pos); cbv zeta; rewrite_tests; reflexivity.
Qed.

(** With no quantity left on the order the loop does nothing. *)
Lemma closeLots_done (order : Order) (remainingQty : Z) (pos : list Lot) :
  remainingQty <= 0 -> closeLots order remainingQty pos = ([], remainingQty, pos).
Proof.
  intros Hle. destruct pos as [|lot rest]; [apply closeLots_nil|].
  rewrite closeLots_cons. now replace (0 <? remainingQty) with false by lia.
Qed.

(** A lot that the order covers is consumed whole and shifted. *)
Lemma closeLots_shift (order : Order) (remainingQty : Z) (lot : Lot) (rest : list Lot) :
  0 < remainingQty -> lotQty lot <= remainingQty ->
  closeLots order remainingQty (lot :: rest) =
  let '(closed, remaining', pos') := closeLots order (remainingQty - lotQty lot) rest in
  (closingTrade lot order (lotQty lot) :: closed, remaining', pos').
Proof.
  intros Hpos Hle. rewrite closeLots_cons.
  replace (0 <? remainingQty) with true by lia. cbv zeta.
  replace (Z.min remainingQty (lotQty lot)) with (lotQty lot) by lia.
  now replace (lotQty lot - lotQty lot <=? 0) with true by lia.
Qed.

(** A lot larger than what the order has left is reduced and stays first. *)
Lemma closeLots_partial (order : Order) (remainingQty : Z) (lot : Lot) (rest : list Lot) :
  0 < remainingQty -> remainingQty < lotQty lot ->
  closeLots order remainingQty (lot :: rest) =
  ([closingTrade lot order remainingQty], 0, lotMinus lot remainingQty :: rest).
Proof.
  intros Hpos Hlt. rewrite closeLots_cons.
  replace (0 <? remainingQty) with true by lia. cbv zeta.
  replace (Z.min remainingQty (lotQty lot)) with remainingQty by lia.
  replace (lotQty lot - remainingQty <=? 0) with false by lia.
  rewrite Z.sub_diag, closeLots_done by lia. reflexivity.
Qed.

(** What the loop returns is a run of the relation. *)
Lemma closeLots_Closes (order : Order) (pos : list Lot) :
  forall remainingQty closed remaining' pos',
    closeLots order remainingQty pos = (closed, remaining', pos') ->
    Closes order remainingQty pos closed remaining' pos'.
Proof.
  induction pos as [|lot rest IH]; intros remainingQty closed remaining' pos' Hrun.
  - rewrite closeLots_nil in Hrun. injection Hrun as <- <- <-.
    destruct (Z_le_gt_dec remainingQty 0); [now apply closes_done|apply closes_empty; lia].
  - destruct (Z_le_gt_dec remainingQty 0) as [Hle|Hgt].
    + rewrite closeLots_done in Hrun by done. injection Hrun as <- <- <-.
      now apply closes_done.
    + destruct (Z_le_gt_dec (lotQty lot) remainingQty) as [Hcover|Hmore].
      * rewrite closeLots_shift in Hrun by lia.
        destruct (closeLots order (remainingQty - lotQty lot) rest)
          as [[closed0 remaining0] pos0] eqn:Hrest.
        injection Hrun as <- <- <-. apply closes_shift; [lia|done|]. now apply IH.
      * rewrite closeLots_partial in Hrun by lia. injection Hrun as <- <- <-.
        apply closes_partial; lia.
Qed.

(** The loop returns on every input. *)
Lemma closeLots_total (order : Order) (remainingQty : Z) (pos : list Lot) :
  exists closed remaining' pos',
    closeLots order remainingQty pos = (closed, remaining', pos')
    /\ Closes order remainingQty pos closed remaining' pos'.
Proof.
  destruct (closeLots order remainingQty pos) as [[closed remaining'] pos'] eqn:Hrun.
  exists closed, remaining', pos'. split; [done|]. now apply closeLots_Closes.
Qed.

(** An iteration of the matcher is a step of the relation. *)
Lemma processOrder_Step (st : MatchState) (order : Order) :
  Step st order (processOrder st order).
Proof.
  unfold processOrder.
  destruct (String.eqb (status order) "Filled") eqn:Hstatus; simpl.
  - apply String.eqb_eq in Hstatus.
    destruct (queueOf (symbol order) (positions st)) as [|first rest] eqn:Hqueue.
    + now apply step_open.
    + destruct (String.eqb (toLowerCase (side (lotOrder first))) (toLowerCase (side order)))
        eqn:Hside.
      * apply String.eqb_eq in Hside. now apply (step_scale st order first rest).
      * apply String.eqb_neq in Hside.
        destruct (closeLots order (qty order) (first :: rest))
          as [[closed remainingQty] pos'] eqn:Hrun.
        apply (step_close st order first rest); try done.
        now apply closeLots_Closes.
  - apply String.eqb_neq in Hstatus. now apply step_skip.
Qed.

(** An invariant of the loop of [matchTrades] holds of its result. *)
Lemma matchLoop_invariant (P : list Order -> MatchState -> Prop) (orders : list Order) :
  P [] initialState ->
  (forall seen order rest st,
      orders = seen ++ order :: rest ->
      P seen st -> P (seen ++ [order]) (processOrder st order)) ->
  P orders (matchLoop orders).
Proof.
  intros Hinit Hstep. unfold matchLoop.
  assert (Hgen : forall rest seen st,
             orders = seen ++ rest -> P seen st ->
             P orders (fold_left processOrder rest st)).
  { induction rest as [|order rest IH]; intros seen st Heq Hseen; simpl.
    - rewrite app_nil_r in Heq. now subst.
    - apply (IH (seen ++ [order])).
      + now rewrite <- app_assoc.
      + now apply (Hstep seen order rest). }
  now apply (Hgen orders []).
Qed.

(** ** Numbers *)

Lemma gtb_ofZ (z : Z) : (ofZ z >? zero)%num = (0 <? z).
Proof.
  unfold gtb, ltb, zero, ofZ, Qcompare; cbn. rewrite Z.mul_1_r.
  now destruct z.
Qed.

Lemma truthy_ofZ (z : Z) : truthy (ofZ z) = negb (z =? 0).
Proof.
  unfold truthy, ofZ, Qeq_bool; cbn. rewrite Z.mul_1_r.
  now destruct z.
Qed.

(** ** The sort of [matchTrades] *)

Lemma compareOrders_gt (a b : Order) :
  (compareOrders a b >? zero)%num = true -> notLater b a.
Proof.
  unfold compareOrders, orElse, notLater, timeOf. rewrite truthy_ofZ.
  destruct (_ =? 0) eqn:Hz; cbn [negb]; [lia|]. rewrite gtb_ofZ. lia.
Qed.

Lemma compareOrders_le (a b : Order) :
  (compareOrders a b >? zero)%num = false -> notLater a b.
Proof.
  unfold compareOrders, orElse, notLater, timeOf. rewrite truthy_ofZ.
  destruct (_ =? 0) eqn:Hz; cbn [negb]; [lia|]. rewrite gtb_ofZ. lia.
Qed.

Lemma insertSorted_Permutation {A : Type} (cmp : A -> A -> num) (x : A) (l : list A) :
  insertSorted cmp x l ≡ₚ x :: l.
Proof.
  induction l as [|y r IH]; simpl; [done|].
  destruct (cmp x y >? zero)%num; [|done].
  rewrite IH. apply perm_swap.
Qed.

Lemma sortBy_Permutation {A : Type} (cmp : A -> A -> num) (l : list A) :
  sortBy cmp l ≡ₚ l.
Proof.
  induction l as [|x l IH]; simpl; [done|].
  unfold sortBy in *. simpl. rewrite insertSorted_Permutation. now rewrite IH.
Qed.

Lemma insertSorted_sorted (x : Order) (l : list Order) :
  StronglySorted notLater l -> StronglySorted notLater (insertSorted compareOrders x l).
Proof.
  induction 1 as [|y r Hr IH Hy]; simpl.
  - repeat constructor.
  - destruct (compareOrders x y >? zero)%num eqn:Hcmp.
    + constructor; [done|].
      rewrite Forall_forall. intros z Hz.
      rewrite insertSorted_Permutation in Hz.
      apply elem_of_cons in Hz as [->|Hz].
      * now apply compareOrders_gt.
      * rewrite Forall_forall in Hy. now apply Hy.
    + apply compareOrders_le in Hcmp.
      constructor; [now constructor|].
      constructor; [done|].
      eapply Forall_impl; [exact Hy|]. unfold notLater in *. simpl. intros; lia.
Qed.

Lemma validOrders_sorted (orders : list Order) :
  StronglySorted notLater (validOrders orders).
Proof.
  unfold validOrders, sortBy.
  induction (List.filter hasPriceAndTime orders) as [|x l IH]; simpl.
  - constructor.
  - now apply insertSorted_sorted.
Qed.

Lemma validOrders_elem (orders : list Order) (o : Order) :
  o ∈ validOrders orders <-> o ∈ orders /\ hasPriceAndTime o = true.
Proof.
  unfold validOrders. rewrite sortBy_Permutation.
  rewrite !list_elem_of_In. apply filter_In.
Qed.

(** In a sorted stream an order is not later than those after it. *)
Lemma sorted_before (before after : list Order) (a b : Order) :
  StronglySorted notLater (before ++ a :: after) -> b ∈ after -> notLater a b.
Proof.
  intros Hsorted Hb. induction before as [|x before IH]; simpl in Hsorted.
  - apply StronglySorted_inv in Hsorted as [_ Hall].
    rewrite Forall_forall in Hall. now apply Hall.
  - apply StronglySorted_inv in Hsorted as [Hrest _]. now apply IH.
Qed.

(** ** The sort is by time, then by price *)

(** [p - q > 0] is [p > q]. *)
Lemma sub_gtb (p q : num) : (p - q >? zero)%num = (p >? q)%num.
Proof.
  destruct p as [| | |a], q as [| | |b]; try reflexivity.
  unfold sub, neg, add, fin, gtb, ltb, zero, ofZ.
  change (inject_Z 0) with 0%Q.
  destruct (Qcompare_spec 0 (Qred (a + Qred (- b)))) as [H|H|H];
    rewrite ?Qred_correct in H;
    destruct (Qcompare_spec b a) as [H'|H'|H']; try reflexivity; exfalso; lra.
Qed.

Lemma gtb_asym (p q : num) : (p >? q)%num = true -> (q >? p)%num = false.
Proof.
  destruct p as [| | |a], q as [| | |b]; try done.
  unfold gtb, ltb.
  destruct (Qcompare_spec b a), (Qcompare_spec a b); try done; exfalso; lra.
Qed.

Lemma gtb_negtrans (p q r : num) :
  q <> NaN -> (p >? q)%num = false -> (q >? r)%num = false -> (p >? r)%num = false.
Proof.
  destruct p as [| | |a], q as [| | |b], r as [| | |c]; try done.
  unfold gtb, ltb. intros _.
  destruct (Qcompare_spec b a), (Qcompare_spec c b), (Qcompare_spec c a);
    try done; exfalso; lra.
Qed.

Lemma compareOrders_spec (a b : Order) :
  (compareOrders a b >? zero)%num
  = if timeOf a =? timeOf b
    then (toNumber (fillPrice a) >? toNumber (fillPrice b))%num
    else timeOf b <? timeOf a.
Proof.
  unfold compareOrders, orElse, timeOf. rewrite truthy_ofZ.
  destruct (Z.eqb_spec (timeValue (placingTime a)) (timeValue (placingTime b))) as [Heq|Hne].
  - rewrite Heq, Z.sub_diag. cbn [Z.eqb negb]. apply sub_gtb.
  - replace (_ - _ =? 0) with false by lia. cbn [negb]. rewrite gtb_ofZ. lia.
Qed.

Lemma inOrder_total (a b : Order) : ~ inOrder a b -> inOrder b a.
Proof.
  unfold inOrder. rewrite !compareOrders_spec. intros Hgt.
  destruct (Z.eqb_spec (timeOf a) (timeOf b)) as [Heq|Hne].
  - rewrite Heq, Z.eqb_refl. apply gtb_asym. now destruct (_ >? _)%num.
  - replace (timeOf b =? timeOf a) with false by lia. lia.
Qed.

Lemma inOrder_trans (a b c : Order) :
  pricedOrder b -> inOrder a b -> inOrder b c -> inOrder a c.
Proof.
  unfold inOrder, pricedOrder. rewrite !compareOrders_spec. intros Hb.
  destruct (Z.eqb_spec (timeOf a) (timeOf b)) as [Hab|Hab];
    destruct (Z.eqb_spec (timeOf b) (timeOf c)) as [Hbc|Hbc];
    destruct (Z.eqb_spec (timeOf a) (timeOf c)) as [Hac|Hac];
    intros H1 H2; try lia.
  now apply (gtb_negtrans _ (toNumber (fillPrice b))).
Qed.

Lemma insertSorted_inOrder (x : Order) (l : list Order) :
  Forall pricedOrder l ->
  StronglySorted inOrder l -> StronglySorted inOrder (insertSorted compareOrders x l).
Proof.
  intros Hpriced Hsorted. induction Hsorted as [|y r Hr IH Hy]; simpl.
  - repeat constructor.
  - apply Forall_cons in Hpriced as [Hpy Hpr].
    destruct (compareOrders x y >? zero)%num eqn:Hcmp.
    + constructor; [now apply IH|].
      rewrite Forall_forall. intros z Hz.
      rewrite insertSorted_Permutation in Hz.
      apply elem_of_cons in Hz as [->|Hz].
      * apply inOrder_total. unfold inOrder. now rewrite Hcmp.
      * rewrite Forall_forall in Hy. now apply Hy.
    + constructor; [now constructor|].
      constructor; [done|].
      eapply Forall_impl; [exact Hy|]. intros z Hz. now apply (inOrder_trans x y z).
Qed.

Lemma hasPriceAndTime_priced (o : Order) : hasPriceAndTime o = true -> pricedOrder o.
Proof.
  unfold hasPriceAndTime, pricedOrder. intros [Hprice _]%andb_true_iff.
  destruct (fillPrice o) as [[| | |q]|]; done.
Qed.

Lemma sortBy_inOrder (l : list Order) :
  Forall pricedOrder l -> StronglySorted inOrder (sortBy compareOrders l).
Proof.
  unfold sortBy. induction l as [|x l IH]; intros Hpriced; simpl; [constructor|].
  apply Forall_cons in Hpriced as [Hx Hl].
  apply insertSorted_inOrder; [|now apply IH].
  fold (sortBy compareOrders l). now rewrite sortBy_Permutation.
Qed.

(** The stream the matcher runs on is in ascending placing time, orders of
    one time in ascending fill price. *)
Lemma validOrders_tie_break (orders : list Order) :
  StronglySorted
    (fun a b => timeOf a < timeOf b
                \/ (timeOf a = timeOf b
                    /\ (toNumber (fillPrice a) >? toNumber (fillPrice b))%num = false))
    (validOrders orders).
Proof.
  assert (Hsorted : StronglySorted inOrder (validOrders orders)).
  { unfold validOrders. apply sortBy_inOrder.
    rewrite Forall_forall. intros o [_ Hvalid]%list_elem_of_In%filter_In.
    now apply hasPriceAndTime_priced. }
  induction Hsorted as [|x l Hl IH Hx]; constructor; [done|].
  eapply Forall_impl; [exact Hx|]. intros y. unfold inOrder.
  rewrite compareOrders_spec.
  destruct (Z.eqb_spec (timeOf x) (timeOf y)); [now right|]. left. lia.
Qed.

(** ** What the closing loop emits and leaves *)

Lemma Closes_trades (order : Order) remainingQty pos closed remaining' pos' :
  Closes order remainingQty pos closed remaining' pos' ->
  forall t, t ∈ closed ->
    exists lot closeQty, lot ∈ pos /\ t = closingTrade lot order closeQty.
Proof.
  induction 1 as [| |rem lot rest closed remaining' pos' Hpos Hle Hrun IH|rem lot rest Hpos Hlt];
    intros t Ht.
  - now apply elem_of_nil in Ht.
  - now apply elem_of_nil in Ht.
  - apply elem_of_cons in Ht as [->|Ht].
    + exists lot, (lotQty lot). split; [left|done].
    + destruct (IH t Ht) as (lot' & c & Hin & ->). exists lot', c. split; [now right|done].
  - apply list_elem_of_singleton in Ht as ->. exists lot, rem. split; [left|done].
Qed.

Lemma Closes_lots (order : Order) remainingQty pos closed remaining' pos' :
  Closes order remainingQty pos closed remaining' pos' ->
  forall lot', lot' ∈ pos' ->
    exists lot, lot ∈ pos /\ lotOrder lot' = lotOrder lot /\ lotPrice lot' = lotPrice lot.
Proof.
  induction 1 as [| |rem lot rest closed remaining' pos' Hpos Hle Hrun IH|rem lot rest Hpos Hlt];
    intros lot' Hlot'.
  - now exists lot'.
  - now apply elem_of_nil in Hlot'.
  - destruct (IH lot' Hlot') as (l & Hin & Ho & Hp). exists l. split; [now right|done].
  - apply elem_of_cons in Hlot' as [->|Hin].
    + exists lot. split; [left|done].
    + exists lot'. split; [now right|done].
Qed.

(** The loop stops with quantity left on the order only when the queue is
    used up. *)
Lemma Closes_leftover (order : Order) remainingQty pos closed remaining' pos' :
  Closes order remainingQty pos closed remaining' pos' ->
  0 < remaining' -> pos' = [].
Proof.
  induction 1; intros Hleft; try done; try (exfalso; lia); auto.
Qed.

(** ** Provenance of lots and trades *)

Lemma queueOf_insert (sym sym' : string) (pos : list Lot) (m : gmap string (list Lot)) :
  queueOf sym' (<[sym := pos]> m) = if decide (sym = sym') then pos else queueOf sym' m.
Proof.
  unfold queueOf. rewrite lookup_insert. now destruct (decide (sym = sym')).
Qed.

Lemma queueOf_empty (sym : string) : queueOf sym ∅ = [].
Proof. unfold queueOf. now rewrite lookup_empty. Qed.

Lemma precedes_snoc (seen : list Order) (entry exit order : Order) :
  precedes seen entry exit -> precedes (seen ++ [order]) entry exit.
Proof.
  intros (before & between & after & ->).
  exists before, between, (after ++ [order]).
  now rewrite <- !app_assoc, <- !app_comm_cons, <- app_assoc.
Qed.

Lemma precedes_last (seen : list Order) (entry order : Order) :
  entry ∈ seen -> precedes (seen ++ [order]) entry order.
Proof.
  intros (before & after & ->)%list_elem_of_split.
  exists before, after, []. now rewrite <- app_assoc.
Qed.

Lemma Pairing_snoc (seen : list Order) (order : Order) (t : Trade) :
  Pairing seen t -> Pairing (seen ++ [order]) t.
Proof.
  intros (entry & exit & Hprec & Hrest). exists entry, exit.
  split; [now apply precedes_snoc|done].
Qed.

Lemma LotsFrom_insert (seen : list Order) (order : Order) (st : MatchState)
    (pos : list Lot) (closed : list Trade) :
  LotsFrom seen st ->
  (forall lot, lot ∈ pos ->
     lotOrder lot ∈ seen ++ [order] /\ symbol (lotOrder lot) = symbol order
     /\ status (lotOrder lot) = "Filled") ->
  LotsFrom (seen ++ [order])
    {| trades := closed; positions := <[symbol order := pos]> (positions st) |}.
Proof.
  intros Hlots Hpos sym lot. simpl. rewrite queueOf_insert.
  destruct (decide (symbol order = sym)) as [<-|Hne]; [apply Hpos|].
  intros Hin. destruct (Hlots sym lot Hin) as (Hseen & Hsym & Hfilled).
  repeat split; try done. apply elem_of_app. now left.
Qed.

Lemma OneSided_insert (st : MatchState) (sym : string) (pos : list Lot)
    (closed : list Trade) :
  OneSided st ->
  (forall a b, a ∈ pos -> b ∈ pos -> sameSide (lotOrder a) (lotOrder b)) ->
  OneSided {| trades := closed; positions := <[sym := pos]> (positions st) |}.
Proof.
  intros Hone Hpos sym' a b. simpl. rewrite queueOf_insert.
  destruct (decide (sym = sym')); [apply Hpos|apply Hone].
Qed.

Lemma Provenance_step (seen : list Order) (order : Order) (st : MatchState) :
  Provenance seen st -> Provenance (seen ++ [order]) (processOrder st order).
Proof.
  intros (Hlots & Hone & Htrades).
  assert (Hold : forall t, t ∈ trades st -> Pairing (seen ++ [order]) t).
  { intros t Ht. now apply Pairing_snoc, Htrades. }
  assert (Hkeep : forall sym lot, lot ∈ queueOf sym (positions st) ->
             lotOrder lot ∈ seen ++ [order] /\ symbol (lotOrder lot) = sym
             /\ status (lotOrder lot) = "Filled").
  { intros sym lot Hin. destruct (Hlots sym lot Hin) as (Hseen & Hsym & Hf).
    split; [|done]. apply elem_of_app. now left. }
  assert (Hnew : forall q lot, lot ∈ [newLot q order] -> status order = "Filled" ->
             lotOrder lot ∈ seen ++ [order] /\ symbol (lotOrder lot) = symbol order
             /\ status (lotOrder lot) = "Filled").
  { intros q lot ->%list_elem_of_singleton Hf. split; [|done].
    apply elem_of_app. right. simpl. left. }
  destruct (processOrder_Step st order)
    as [Hskip|Hfilled Hqueue|first rest Hfilled Hqueue Hside
        |first rest closed remainingQty pos' Hfilled Hqueue Hside Hrun].
  - split; [exact Hkeep|split; [exact Hone|exact Hold]].
  - split; [|split; [|exact Hold]].
    + apply LotsFrom_insert; [done|]. intros lot Hin. now apply (Hnew (qty order)).
    + apply OneSided_insert; [done|].
      now intros a b ->%list_elem_of_singleton ->%list_elem_of_singleton.
  - assert (Hq : forall lot, lot ∈ (first :: rest) ++ [newLot (qty order) order] ->
                 sameSide (lotOrder lot) order).
    { intros lot [Hin| ->%list_elem_of_singleton]%elem_of_app; [|done].
      rewrite <- Hqueue in Hin. unfold sameSide in *.
      rewrite <- Hside. apply (Hone (symbol order)); [done|]. rewrite Hqueue. left. }
    split; [|split; [|exact Hold]].
    + apply LotsFrom_insert; [done|].
      intros lot [Hin|Hin]%elem_of_app.
      * rewrite <- Hqueue in Hin. now apply Hkeep.
      * now apply (Hnew (qty order)).
    + apply OneSided_insert; [done|].
      intros a b Ha Hb. unfold sameSide. now rewrite (Hq a Ha), (Hq b Hb).
  - assert (Hleft : forall lot, lot ∈ pos' ->
                 exists lot0, lot0 ∈ queueOf (symbol order) (positions st)
                              /\ lotOrder lot = lotOrder lot0).
    { intros lot Hin. destruct (Closes_lots _ _ _ _ _ _ Hrun lot Hin) as (lot0 & Hin0 & Ho & _).
      exists lot0. now rewrite Hqueue. }
    split; [|split].
    + apply LotsFrom_insert; [done|]. intros lot Hin.
      destruct (0 <? remainingQty) eqn:Hrem.
      * rewrite (Closes_leftover _ _ _ _ _ _ Hrun) in Hin by lia.
        now apply (Hnew remainingQty).
      * destruct (Hleft lot Hin) as (lot0 & Hin0 & ->). now apply Hkeep.
    + apply OneSided_insert; [done|]. intros a b Ha Hb.
      destruct (0 <? remainingQty) eqn:Hrem.
      * rewrite (Closes_leftover _ _ _ _ _ _ Hrun) in Ha, Hb by lia.
        now apply list_elem_of_singleton in Ha as ->; apply list_elem_of_singleton in Hb as ->.
      * destruct (Hleft a Ha) as (a0 & Ha0 & ->). destruct (Hleft b Hb) as (b0 & Hb0 & ->).
        now apply (Hone (symbol order)).
    + simpl. intros t [Ht|Ht]%elem_of_app; [now apply Hold|].
      destruct (Closes_trades _ _ _ _ _ _ Hrun t Ht) as (lot & c & Hin & ->).
      rewrite <- Hqueue in Hin. destruct (Hlots _ _ Hin) as (Hseen & Hsym & Hf).
      exists (lotOrder lot), order.
      split; [now apply precedes_last|].
      split; [done|]. split; [done|]. split; [done|]. split; [|done].
      intros Hsame. apply Hside. unfold sameSide in *. rewrite <- Hsame.
      apply (Hone (symbol order)); [|done]. rewrite Hqueue. left.
Qed.

Lemma matchLoop_Provenance (orders : list Order) :
  Provenance orders (matchLoop orders).
Proof.
  apply matchLoop_invariant.
  - split; [|split].
    + intros sym lot. simpl. rewrite queueOf_empty. now intros ?%elem_of_nil.
    + intros sym a b. simpl. rewrite queueOf_empty. now intros ?%elem_of_nil.
    + simpl. now intros t ?%elem_of_nil.
  - intros seen order rest st _. apply Provenance_step.
Qed.

(** ** Conservation of quantity *)














(** ** The steps of the matcher as equations *)

Lemma processOrder_open (st : MatchState) (order : Order) :
  status order = "Filled" ->
  queueOf (symbol order) (positions st) = [] ->
  processOrder st order
  = {| trades := trades st;
       positions := <[symbol order := [newLot (qty order) order]]> (positions st) |}.
Proof.
  intros Hfilled Hqueue. unfold processOrder. now rewrite Hfilled, Hqueue.
Qed.

Lemma processOrder_close (st : MatchState) (order : Order) first rest closed remainingQty pos' :
  status order = "Filled" ->
  queueOf (symbol order) (positions st) = first :: rest ->
  ~ sameSide (lotOrder first) order ->
  closeLots order (qty order) (first :: rest) = (closed, remainingQty, pos') ->
  processOrder st order
  = {| trades := trades st ++ closed;
       positions :=
         <[symbol order :=
             if 0 <? remainingQty then pos' ++ [newLot remainingQty order] else pos']>
           (positions st) |}.
Proof.
  intros Hfilled Hqueue Hside Hrun. unfold processOrder.
  rewrite Hfilled, Hqueue. cbn [String.eqb negb].
  apply String.eqb_neq in Hside. rewrite Hside. now rewrite Hrun.
Qed.

Lemma compareOrders_earlier (a b : Order) :
  timeOf a < timeOf b -> (compareOrders a b >? zero)%num = false.
Proof.
  unfold compareOrders, orElse, timeOf. intros Hlt. rewrite truthy_ofZ.
  replace (_ =? 0) with false by lia. cbn [negb]. rewrite gtb_ofZ. lia.
Qed.

(** ** The reference stream *)

(** C2. On one symbol, a filled entry Sell 5 @ 100 followed in time by the
    filled exits Buy 2 @ 101, Buy 2 @ 102 and Buy 1 @ 103 gives exactly three
    trades, all short, of quantities 2, 2 and 1, each entered at 100, and
    leaves the symbol's queue of lots empty, with no quantity open. *)
Theorem fifo_reference_stream (sym : string) (entry exit1 exit2 exit3 : Order)
    (t0 t1 t2 t3 : Z) :
  isFill entry sym "sell" 5 100 t0 ->
  isFill exit1 sym "buy" 2 101 t1 ->
  isFill exit2 sym "buy" 2 102 t2 ->
  isFill exit3 sym "buy" 1 103 t3 ->
  t0 < t1 -> t1 < t2 -> t2 < t3 ->
  let orders := [entry; exit1; exit2; exit3] in
  let matched := matchTrades orders in
  length matched = 3%nat
  /\ map tradeSide matched = ["SHORT"; "SHORT"; "SHORT"]
  /\ map quantity matched = [2; 2; 1]
  /\ map entryPrice matched = [Some (ofZ 100); Some (ofZ 100); Some (ofZ 100)]
  /\ openPositions orders !! sym = Some []
  /\ unclosed (queueOf sym (openPositions orders)) = 0.
Proof.
  intros (Hs0 & Hd0 & Hq0 & Hp0 & Ht0 & Hf0) (Hs1 & Hd1 & Hq1 & Hp1 & Ht1 & Hf1)
         (Hs2 & Hd2 & Hq2 & Hp2 & Ht2 & Hf2) (Hs3 & Hd3 & Hq3 & Hp3 & Ht3 & Hf3)
         H01 H12 H23 orders matched.
  assert (Hvalid : validOrders orders = orders).
  { unfold validOrders, orders. cbn [List.filter]. unfold hasPriceAndTime.
    rewrite Hp0, Hp1, Hp2, Hp3, Ht0, Ht1, Ht2, Ht3. cbn [truthyOpt].
    rewrite !truthy_ofZ. cbn.
    unfold sortBy. cbn [foldr insertSorted].
    rewrite (compareOrders_earlier exit2 exit3) by (unfold timeOf; rewrite Ht2, Ht3; simpl; lia).
    cbn [insertSorted].
    rewrite (compareOrders_earlier exit1 exit2) by (unfold timeOf; rewrite Ht1, Ht2; simpl; lia).
    cbn [insertSorted].
    now rewrite (compareOrders_earlier entry exit1)
      by (unfold timeOf; rewrite Ht0, Ht1; simpl; lia). }
  assert (Hside : forall x, toLowerCase (side x) = "buy" ->
                            ~ sameSide (lotOrder (newLot 5 entry)) x).
  { intros x Hx. unfold sameSide. simpl. now rewrite Hd0, Hx. }
  pose (lot5 := newLot 5 entry).
  pose (lot3 := lotMinus lot5 2).
  pose (lot1 := lotMinus lot3 2).
  assert (Hloop : matchLoop orders
                  = {| trades := [closingTrade lot5 exit1 2; closingTrade lot3 exit2 2;
                                  closingTrade lot1 exit3 1];
                       positions := <[sym := []]> (<[sym := [lot1]]> (<[sym := [lot3]]>
                                      (<[sym := [lot5]]> ∅))) |}).
  { unfold matchLoop, orders. cbn [fold_left].
    rewrite (processOrder_open initialState entry Hf0)
      by (simpl; apply queueOf_empty).
    rewrite Hs0, Hq0. cbn [positions trades initialState].
    rewrite (processOrder_close _ exit1 lot5 [] [closingTrade lot5 exit1 2] 0 [lot3]); cycle 1.
    { done. }
    { rewrite Hs1. cbn [positions]. rewrite queueOf_insert. now rewrite decide_True. }
    { now apply Hside. }
    { rewrite Hq1. now apply closeLots_partial. }
    rewrite Hs1. cbn [positions trades app Z.ltb Z.compare].
    rewrite (processOrder_close _ exit2 lot3 [] [closingTrade lot3 exit2 2] 0 [lot1]); cycle 1.
    { done. }
    { rewrite Hs2. cbn [positions]. rewrite queueOf_insert. now rewrite decide_True. }
    { now apply Hside. }
    { rewrite Hq2. now apply closeLots_partial. }
    rewrite Hs2. cbn [positions trades app Z.ltb Z.compare].
    rewrite (processOrder_close _ exit3 lot1 [] [closingTrade lot1 exit3 1] 0 []); cycle 1.
    { done. }
    { rewrite Hs3. cbn [positions]. rewrite queueOf_insert. now rewrite decide_True. }
    { now apply Hside. }
    { rewrite Hq3. rewrite closeLots_shift by (simpl; lia).
      change (1 - lotQty lot1) with 0. now rewrite closeLots_nil. }
    rewrite Hs3. now cbn [positions trades app Z.ltb Z.compare]. }
  unfold matched, matchTrades, openPositions. rewrite Hvalid, Hloop. cbn [trades positions].
  split; [done|]. split.
  { cbn [map closingTrade createTradeObject tradeSide orderCopy side lotOrder lot1 lot3 lot5
         lotMinus newLot]. now rewrite Hd0. }
  split; [done|]. split.
  { cbn [map closingTrade createTradeObject entryPrice orderCopy fillPrice lotOrder lot1 lot3
         lot5 lotMinus newLot]. now rewrite Hp0. }
  split.
  { apply lookup_insert_eq. }
  rewrite queueOf_insert, decide_True by done. reflexivity.
Qed.

Lemma fifo_reference_stream_witness :
  let matched := matchTrades referenceStream in
  length matched = 3%nat
  /\ map tradeSide matched = ["SHORT"; "SHORT"; "SHORT"]
  /\ map quantity matched = [2; 2; 1]
  /\ map entryPrice matched = [Some (ofZ 100); Some (ofZ 100); Some (ofZ 100)]
  /\ openPositions referenceStream !! "CME_MINI:ES1!" = Some []
  /\ unclosed (queueOf "CME_MINI:ES1!" (openPositions referenceStream)) = 0.
Proof.
  apply (fifo_reference_stream "CME_MINI:ES1!" _ _ _ _ 1000 2000 3000 4000);
    try (repeat split; reflexivity); lia.
Defined.

(** ** Side attribution and time order of the trades *)

Lemma precedes_elem (stream : list Order) (entry exit : Order) :
  precedes stream entry exit -> entry ∈ stream /\ exit ∈ stream.
Proof.
  intros (before & between & after & ->). split.
  - apply elem_of_app. right. left.
  - apply elem_of_app. right. right. apply elem_of_app. right. left.
Qed.

Lemma matchTrades_Pairing (orders : list Order) (t : Trade) :
  t ∈ matchTrades orders -> Pairing (validOrders orders) t.
Proof.
  intros Ht. now apply (matchLoop_Provenance (validOrders orders)).
Qed.

Lemma participates_valid (orders : list Order) (o : Order) :
  o ∈ validOrders orders -> status o = "Filled" ->
  o ∈ orders /\ participates o = true.
Proof.
  intros [Hin Hvalid]%validOrders_elem Hfilled. split; [done|].
  unfold participates. rewrite Hvalid, Hfilled. reflexivity.
Qed.

(** C3. Every trade of the matcher pairs an entry order with a later exit
    order of the stream, of the same symbol and the other side; its side is
    long exactly when that entry order, the one kept on the lot it closes,
    is a buy, and short otherwise, however many orders lie between the two. *)
Theorem side_follows_entry_order (orders : list Order) (t : Trade) :
  t ∈ matchTrades orders ->
  exists entry exit,
    precedes (validOrders orders) entry exit
    /\ (entry ∈ orders /\ participates entry = true)
    /\ (exit ∈ orders /\ participates exit = true)
    /\ symbol entry = symbol exit
    /\ ~ sameSide entry exit
    /\ entryOrder t = Some (orderCopy entry (quantity t))
    /\ exitOrder t = Some (orderCopy exit (quantity t))
    /\ (tradeSide t = "LONG" <-> toLowerCase (side entry) = "buy")
    /\ (tradeSide t = "SHORT" <-> toLowerCase (side entry) <> "buy").
Proof.
  intros Ht.
  destruct (matchTrades_Pairing orders t Ht)
    as (entry & exit & Hprec & Hfe & Hfx & Hsym & Hside & Heq).
  destruct (precedes_elem _ _ _ Hprec) as [Hentry Hexit].
  exists entry, exit.
  split; [done|]. split; [now apply participates_valid|].
  split; [now apply participates_valid|]. split; [done|]. split; [done|].
  rewrite Heq at 1 3 5 6. cbn [entryOrder exitOrder tradeSide createTradeObject orderCopy side].
  split; [done|]. split; [done|].
  destruct (String.eqb_spec (toLowerCase (side entry)) "buy") as [Hbuy|Hsell];
    (split; split); intros Hgoal; first [done | discriminate | contradiction].
Qed.

Lemma side_follows_entry_order_witness :
  exists entry exit,
    precedes (validOrders referenceStream) entry exit
    /\ (entry ∈ referenceStream /\ participates entry = true)
    /\ (exit ∈ referenceStream /\ participates exit = true)
    /\ symbol entry = symbol exit
    /\ ~ sameSide entry exit
    /\ entryOrder referenceLastTrade = Some (orderCopy entry (quantity referenceLastTrade))
    /\ exitOrder referenceLastTrade = Some (orderCopy exit (quantity referenceLastTrade))
    /\ (tradeSide referenceLastTrade = "LONG" <-> toLowerCase (side entry) = "buy")
    /\ (tradeSide referenceLastTrade = "SHORT" <-> toLowerCase (side entry) <> "buy").
Proof.
  apply (side_follows_entry_order referenceStream referenceLastTrade).
  vm_compute. do 2 right. left.
Defined.

(** C5. For every list of orders, every trade of the matcher has an entry
    time and an exit time, the placing times of the order that opened the
    lot and of the order that closes it, and the entry time is not after the
    exit time. *)
Theorem entry_time_not_after_exit_time (orders : list Order) (t : Trade) :
  t ∈ matchTrades orders ->
  exists entry exit (te tx : Z),
    precedes (validOrders orders) entry exit
    /\ entryOrder t = Some (orderCopy entry (quantity t))
    /\ exitOrder t = Some (orderCopy exit (quantity t))
    /\ placingTime entry = Some te /\ placingTime exit = Some tx
    /\ entryTime t = Some te /\ exitTime t = Some tx
    /\ te <= tx.
Proof.
  intros Ht.
  destruct (matchTrades_Pairing orders t Ht)
    as (entry & exit & Hprec & _ & _ & _ & _ & Heq).
  destruct (precedes_elem _ _ _ Hprec) as [Hentry Hexit].
  apply validOrders_elem in Hentry as [_ Hve]. apply validOrders_elem in Hexit as [_ Hvx].
  unfold hasPriceAndTime in Hve, Hvx.
  apply andb_true_iff in Hve as [_ [te Hte]%bool_decide_eq_true].
  apply andb_true_iff in Hvx as [_ [tx Htx]%bool_decide_eq_true].
  exists entry, exit, te, tx.
  split; [done|].
  rewrite Heq at 1 3 5 6.
  cbn [entryOrder exitOrder entryTime exitTime createTradeObject orderCopy placingTime].
  split; [done|]. split; [done|]. split; [done|]. split; [done|].
  split; [done|]. split; [done|].
  destruct Hprec as (before & between & after & Hstream).
  pose proof (validOrders_sorted orders) as Hsorted. rewrite Hstream in Hsorted.
  assert (Hle : notLater entry exit).
  { apply (sorted_before before (between ++ exit :: after)); [done|].
    apply elem_of_app. right. left. }
  unfold notLater, timeOf in Hle. now rewrite Hte, Htx in Hle.
Qed.

Lemma entry_time_not_after_exit_time_witness :
  exists entry exit (te tx : Z),
    precedes (validOrders referenceStream) entry exit
    /\ entryOrder referenceLastTrade = Some (orderCopy entry (quantity referenceLastTrade))
    /\ exitOrder referenceLastTrade = Some (orderCopy exit (quantity referenceLastTrade))
    /\ placingTime entry = Some te /\ placingTime exit = Some tx
    /\ entryTime referenceLastTrade = Some te /\ exitTime referenceLastTrade = Some tx
    /\ te <= tx.
Proof.
  apply (entry_time_not_after_exit_time referenceStream referenceLastTrade).
  vm_compute. do 2 right. left.
Defined.

(** ** Quantity conservation over a whole run *)





(** ** Orders that fail the tests of the matcher do not matter *)

(** The loop passes over an order that is not filled. *)
Lemma matchLoop_skips (stream : list Order) (st : MatchState) :
  fold_left processOrder stream st
  = fold_left processOrder
      (List.filter (fun o => String.eqb (status o) "Filled") stream) st.
Proof.
  revert st. induction stream as [|o stream IH]; intros st; simpl; [done|].
  destruct (String.eqb (status o) "Filled") eqn:Hfilled; simpl.
  - apply IH.
  - rewrite <- IH. f_equal. unfold processOrder. now rewrite Hfilled.
Qed.


Lemma insertSorted_head (x : Order) (l : list Order) :
  Forall (inOrder x) l -> insertSorted compareOrders x l = x :: l.
Proof.
  destruct l as [|y r]; [done|]. intros [Hy _]%Forall_cons. simpl.
  unfold inOrder in Hy. now rewrite Hy.
Qed.

(** A stable sort commutes with a filter. *)
Lemma insertSorted_filter (p : Order -> bool) (x : Order) (l : list Order) :
  Forall pricedOrder l -> StronglySorted inOrder l ->
  List.filter p (insertSorted compareOrders x l)
  = if p x then insertSorted compareOrders x (List.filter p l) else List.filter p l.
Proof.
  intros Hpriced Hsorted. induction Hsorted as [|y r Hr IH Hy]; simpl.
  - now destruct (p x).
  - apply Forall_cons in Hpriced as [Hpy Hpr].
    destruct (compareOrders x y >? zero)%num eqn:Hcmp; simpl.
    + rewrite IH by done. destruct (p y), (p x); simpl; try done. now rewrite Hcmp.
    + destruct (p x) eqn:Hpx; [|done].
      rewrite insertSorted_head; [done|].
      rewrite Forall_forall. intros z Hz.
      assert (Hin : z ∈ y :: r).
      { destruct (p y).
        - apply elem_of_cons in Hz as [->|Hz]; [left|right].
          now apply list_elem_of_In, filter_In in Hz as [?%list_elem_of_In _].
        - right. now apply list_elem_of_In, filter_In in Hz as [?%list_elem_of_In _]. }
      apply elem_of_cons in Hin as [->|Hin]; [done|].
      apply (inOrder_trans x y z); [done|done|].
      rewrite Forall_forall in Hy. now apply Hy.
Qed.

Lemma sortBy_filter (p : Order -> bool) (l : list Order) :
  Forall pricedOrder l ->
  List.filter p (sortBy compareOrders l) = sortBy compareOrders (List.filter p l).
Proof.
  induction l as [|x l IH]; intros Hpriced; [done|].
  apply Forall_cons in Hpriced as [Hx Hl].
  change (sortBy compareOrders (x :: l))
    with (insertSorted compareOrders x (sortBy compareOrders l)).
  rewrite insertSorted_filter.
  - simpl. rewrite IH by done. now destruct (p x).
  - now rewrite sortBy_Permutation.
  - now apply sortBy_inOrder.
Qed.

Lemma filter_both {A : Type} (p q : A -> bool) (l : list A) :
  List.filter p (List.filter q l) = List.filter (fun x => q x && p x) l.
Proof.
  induction l as [|x l IH]; simpl; [done|].
  destruct (q x); simpl; [destruct (p x)|]; now rewrite IH.
Qed.

Lemma filter_same {A : Type} (p q : A -> bool) (l : list A) :
  (forall x, p x = q x) -> List.filter p l = List.filter q l.
Proof.
  intros Hext. induction l as [|x l IH]; simpl; [done|]. now rewrite Hext, IH.
Qed.

(** The orders that fail the filter of [matchTrades] or the status test of
    its loop are dropped without a trace: the run on all the orders is the
    run on the participating ones, trade for trade and lot for lot. *)
Lemma matchLoop_participating (orders : list Order) :
  matchLoop (validOrders orders) = matchLoop (validOrders (List.filter participates orders)).
Proof.
  unfold matchLoop.
  rewrite (matchLoop_skips (validOrders orders)),
          (matchLoop_skips (validOrders (List.filter participates orders))).
  f_equal. unfold validOrders.
  assert (Hpriced : forall l, Forall pricedOrder (List.filter hasPriceAndTime l)).
  { intros l. rewrite Forall_forall. intros o [_ Hvalid]%list_elem_of_In%filter_In.
    now apply hasPriceAndTime_priced. }
  rewrite !sortBy_filter by apply Hpriced. f_equal.
  rewrite !filter_both. apply filter_same. intros o. unfold participates.
  destruct (hasPriceAndTime o), (String.eqb (status o) "Filled"); reflexivity.
Qed.

Lemma matchTrades_participating (orders : list Order) :
  matchTrades orders = matchTrades (List.filter participates orders)
  /\ openPositions orders = openPositions (List.filter participates orders).
Proof.
  unfold matchTrades, openPositions. now rewrite matchLoop_participating.
Qed.

(** C4, at the input where the code departs from it.  A filled order with a
    placing time and the fill price 0, which is not null and which
    [validateOrder] accepts, fails the filter of [matchTrades]: the buy at 0
    opens no lot, the later sell opens a position of its own instead of
    closing one, and no trade comes out; with the buy filled at 1 the same
    stream gives one trade. *)
Theorem zero_price_fill_is_dropped :
  exists buy sell,
    zeroPriceStream = [buy; sell]
    /\ fillPrice buy = Some zero
    /\ placingTime buy = Some 1000
    /\ status buy = "Filled"
    /\ CSVParser.validateOrder buy = true
    /\ hasPriceAndTime buy = false
    /\ validOrders zeroPriceStream = [sell]
    /\ matchTrades zeroPriceStream = []
    /\ queueOf "NAS100" (openPositions zeroPriceStream) = [newLot 1 sell]
    /\ length (matchTrades unitPriceStream) = 1%nat.
Proof.
  eexists. eexists. split; [reflexivity|]. vm_compute. repeat split; reflexivity.
Qed.

(** ** Profit and loss of a trade *)

Lemma calculateTrade_fields (trade priced : Trade) :
  calculateTrade trade = Some priced ->
  let specs := getContractSpecs (contract trade) in
  tradeSide priced = sideOrLong trade
  /\ entryPrice priced = entryPrice trade
  /\ exitPrice priced = exitPrice trade
  /\ quantity priced = quantity trade
  /\ pointDifference priced = pointDifferenceOf trade
  /\ grossProfit priced
     = (pointDifferenceOf trade * ofZ (quantity trade) * effectiveMultiplier trade specs)%num
  /\ totalCommission priced = tradeCommission trade specs
  /\ netProfit priced = (grossProfit priced - totalCommission priced)%num
  /\ isWin priced = (netProfit priced >? zero)%num
  /\ tradeStatus priced = (if isWin priced then "WIN" else "LOSE").
Proof.
  unfold calculateTrade. intros Hcalc.
  destruct (entryOrder trade) as [entry|]; [|discriminate].
  destruct (exitOrder trade) as [exit|]; [|discriminate].
  injection Hcalc as <-. cbn. repeat split; reflexivity.
Qed.

(** C6. For every priced trade, the point difference is entry price minus
    exit price when the side is short and exit price minus entry price
    otherwise; where the margin and leverage correction does not apply, the
    gross profit is the point difference times the quantity times the
    registry multiplier.  The round trip 6970.75 to 6976.75, long, five
    contracts at multiplier 50 and 2.50 a side, has gross profit 1500,
    total commission 25, net profit 1475, and is a win. *)
Theorem profit_and_loss :
  (forall trade priced,
      calculateTrade trade = Some priced ->
      let specs := getContractSpecs (contract trade) in
      pointDifference priced
      = (if String.eqb (tradeSide priced) "SHORT"
         then toNumber (entryPrice priced) - toNumber (exitPrice priced)
         else toNumber (exitPrice priced) - toNumber (entryPrice priced))%num
      /\ (derivedMultiplier trade specs = None ->
          grossProfit priced
          = (pointDifference priced * ofZ (quantity priced) * multiplier specs)%num))
  /\ (exists priced,
        processOrders roundTripOrders = Some [priced]
        /\ entryPrice priced = Some (dec 697075 2)
        /\ exitPrice priced = Some (dec 697675 2)
        /\ quantity priced = 5
        /\ tradeSide priced = "LONG"
        /\ multiplier (getContractSpecs (contract priced)) = ofZ 50
        /\ specCommission (getContractSpecs (contract priced)) = dec 25 1
        /\ grossProfit priced = ofZ 1500
        /\ totalCommission priced = ofZ 25
        /\ netProfit priced = ofZ 1475
        /\ tradeStatus priced = "WIN").
Proof.
  split.
  - intros trade priced Hcalc specs.
    destruct (calculateTrade_fields trade priced Hcalc)
      as (Hside & Hentry & Hexit & Hqty & Hpoint & Hgross & _).
    split.
    + rewrite Hpoint, Hside, Hentry, Hexit. reflexivity.
    + intros Hnone. rewrite Hgross, Hpoint, Hqty.
      unfold effectiveMultiplier. fold specs. now rewrite Hnone.
  - eexists. split; [vm_compute; reflexivity|]. vm_compute. repeat split; reflexivity.
Qed.

Lemma profit_and_loss_witness :
  exists trade priced,
    matchTrades roundTripOrders = [trade]
    /\ calculateTrade trade = Some priced
    /\ derivedMultiplier trade (getContractSpecs (contract trade)) = None
    /\ grossProfit priced
       = (pointDifference priced * ofZ (quantity priced)
          * multiplier (getContractSpecs (contract trade)))%num
    /\ grossProfit priced = ofZ 1500.
Proof.
  destruct profit_and_loss as [Hgeneral _].
  eexists. eexists.
  split; [vm_compute; reflexivity|].
  split; [vm_compute; reflexivity|].
  split; [vm_compute; reflexivity|].
  split.
  - refine (proj2 (Hgeneral _ _ _) _); vm_compute; reflexivity.
  - vm_compute. reflexivity.
Defined.

(** ** Commission of a trade *)




(** ** Summary statistics *)

Lemma gtb_zero_Fin (q : Q) : (Fin q >? zero)%num = true <-> (0 < q)%Q.
Proof.
  unfold gtb, ltb, zero, ofZ. rewrite Qlt_alt.
  change (inject_Z 0) with 0%Q. destruct (0 ?= q)%Q; split; congruence.
Qed.

Lemma add_nonNegative_positive (x y : num) :
  nonNegative x -> (y >? zero)%num = true ->
  (x + y >? zero)%num = true /\ nonNegative (x + y)%num.
Proof.
  destruct x as [| | |a], y as [| | |b]; cbn; try done.
  intros Ha Hb. apply gtb_zero_Fin in Hb.
  unfold add, fin. rewrite gtb_zero_Fin. cbn. rewrite !Qred_correct. split; lra.
Qed.

(** A sum of positive numbers is zero or more, and positive when there is
    at least one of them. *)
Lemma sumOf_positive {A : Type} (f : A -> num) (xs : list A) :
  (forall x, x ∈ xs -> (f x >? zero)%num = true) ->
  nonNegative (sumOf f xs)
  /\ (xs <> [] -> (sumOf f xs >? zero)%num = true).
Proof.
  unfold sumOf. intros Hall.
  assert (Hgen : forall start,
             nonNegative start ->
             nonNegative (fold_left (fun sum x => (sum + f x)%num) xs start)
             /\ (xs <> [] ->
                 (fold_left (fun sum x => (sum + f x)%num) xs start >? zero)%num = true)).
  { induction xs as [|x xs IH]; intros start Hstart; simpl; [done|].
    destruct (add_nonNegative_positive start (f x) Hstart) as [Hpos Hnn].
    { apply Hall. left. }
    destruct (IH (fun y Hy => Hall y (list_elem_of_further _ _ _ Hy)) _ Hnn) as [Hnn' Hpos'].
    split; [done|]. intros _.
    destruct xs as [|y ys]; [exact Hpos|]. now apply Hpos'. }
  apply Hgen. cbn. apply Qle_refl.
Qed.

Lemma calculateTrade_isWin (trade priced : Trade) :
  calculateTrade trade = Some priced -> isWin priced = (netProfit priced >? zero)%num.
Proof.
  intros Hcalc. now destruct (calculateTrade_fields trade priced Hcalc) as (_&_&_&_&_&_&_&_&?&_).
Qed.

(** C8. For a list of trades that is not empty, the profit factor is the
    sum of the winners' net profits over the absolute value of the sum of
    the losers' whenever that value is positive; it is +Infinity when there
    is a winner and no loser; and it is 0 when neither sum is positive.  The
    summary of the empty list is the empty summary: its profit factor and
    every other figure is zero, none is NaN, its date range is null; and
    [generateSummary] returns a summary for every list, the empty one
    included. *)
Theorem summary_boundaries (sqrt : num -> num) :
  (forall trades,
      trades <> [] ->
      let winners := List.filter isWin trades in
      let losers := List.filter (fun t => negb (isWin t)) trades in
      let grossWin := sumOf netProfit winners in
      let grossLoss := abs (sumOf netProfit losers) in
      ((grossLoss >? zero)%num = true ->
       profitFactor (generateSummary sqrt trades) = (grossWin / grossLoss)%num)
      /\ ((forall t, t ∈ trades -> isWin t = (netProfit t >? zero)%num) ->
          winners <> [] -> losers = [] ->
          profitFactor (generateSummary sqrt trades) = PosInf)
      /\ ((grossLoss >? zero)%num = false -> (grossWin >? zero)%num = false ->
          profitFactor (generateSummary sqrt trades) = zero))
  /\ generateSummary sqrt [] = getEmptySummary
  /\ profitFactor (generateSummary sqrt []) = zero
  /\ (let s := generateSummary sqrt [] in
      totalTrades s = 0%nat /\ winCount s = 0%nat /\ lossCount s = 0%nat
      /\ consecutiveWins s = 0%nat /\ consecutiveLosses s = 0%nat
      /\ Forall (fun x => x = zero)
           [totalProfit s; totalGrossProfit s; summaryCommission s; winRate s;
            bestTrade s; worstTrade s; averageProfit s; averageWin s; averageLoss s;
            profitFactor s; sharpeRatio s; maxDrawdown s]
      /\ dateRange s = None).
Proof.
  split; [|split; [reflexivity|split; [reflexivity|]]].
  - intros trades Hne winners losers grossWin grossLoss.
    destruct trades as [|t0 rest]; [done|].
    change (profitFactor (generateSummary sqrt (t0 :: rest)))
      with (calculateProfitFactor winners losers).
    unfold calculateProfitFactor. fold grossWin grossLoss. split; [|split].
    + now intros ->.
    + intros Hconsistent Hwinners Hlosers.
      subst grossLoss. rewrite Hlosers.
      replace (abs (sumOf netProfit []) >? zero)%num with false by reflexivity.
      destruct (sumOf_positive netProfit winners) as [_ Hpos].
      { intros t [Hin Hwin]%list_elem_of_In%filter_In.
        rewrite <- Hconsistent; [done|]. now apply list_elem_of_In. }
      fold grossWin in Hpos. now rewrite (Hpos Hwinners).
    + now intros -> ->.
  - cbn. repeat split; try reflexivity. repeat constructor.
Qed.

Lemma summary_boundaries_witness :
  exists priced,
    processOrders roundTripOrders = Some priced
    /\ profitFactor (generateSummary (fun x => x) priced) = PosInf.
Proof.
  destruct (summary_boundaries (fun x => x)) as [Hgeneral _].
  eexists. split; [vm_compute; reflexivity|].
  refine (proj1 (proj2 (Hgeneral _ _)) _ _ _).
  - discriminate.
  - intros t Hin. vm_compute in Hin.
    apply list_elem_of_singleton in Hin as ->. vm_compute. reflexivity.
  - vm_compute. discriminate.
  - vm_compute. reflexivity.
Defined.

(** ** The local merge *)

Import TradleApp.

Section MergeFacts.

Variable generateTradeId : nat -> string.
Variable newOrders : list Order.

Abbreviation step := (mergeTrade generateTradeId newOrders).

Lemma known_id (ids : list string) (known : gset string) :
  existsb (fun orderId => bool_decide (orderId ∈ known)) ids = true
  <-> exists orderId, orderId ∈ ids /\ orderId ∈ known.
Proof.
  rewrite existsb_exists. split; intros (orderId & Hin & Hknown); exists orderId.
  - split; [now apply list_elem_of_In|now apply bool_decide_eq_true in Hknown].
  - split; [now apply list_elem_of_In|now apply bool_decide_eq_true].
Qed.

(** [merge] only ever adds order ids. *)
Lemma mergeTrade_grows (st : MergeState) (trade : Trade) :
  orderIds (database st) ⊆ orderIds (database (step st trade)).
Proof.
  unfold mergeTrade.
  destruct (extractTradeOrderIds trade newOrders) as [|orderId ids]; [done|].
  destruct (existsb _ _); cbn; set_solver.
Qed.

Lemma merge_grows (trades : list Trade) (st : MergeState) :
  orderIds (database st) ⊆ orderIds (database (fold_left step trades st)).
Proof.
  revert st. induction trades as [|trade trades IH]; intros st; simpl; [done|].
  etrans; [apply mergeTrade_grows|apply IH].
Qed.

(** Once a trade with order ids has been through [merge], one of its ids is
    tracked, whether the trade was added or found to be a duplicate. *)
Lemma mergeTrade_tracks (st : MergeState) (trade : Trade) :
  unidentified newOrders trade = false ->
  exists orderId,
    orderId ∈ extractTradeOrderIds trade newOrders
    /\ orderId ∈ orderIds (database (step st trade)).
Proof.
  unfold unidentified, mergeTrade.
  destruct (extractTradeOrderIds trade newOrders) as [|first ids] eqn:Hids; [done|].
  intros _. destruct (existsb _ _) eqn:Hknown.
  - apply known_id in Hknown as (orderId & Hin & Hknown). now exists orderId.
  - exists first. split; [left|]. cbn. set_solver.
Qed.

Lemma merge_tracks (trades : list Trade) (st : MergeState) (trade : Trade) :
  trade ∈ trades -> unidentified newOrders trade = false ->
  exists orderId,
    orderId ∈ extractTradeOrderIds trade newOrders
    /\ orderId ∈ orderIds (database (fold_left step trades st)).
Proof.
  revert st. induction trades as [|first trades IH]; intros st Hin Hids.
  - now apply elem_of_nil in Hin.
  - simpl. apply elem_of_cons in Hin as [->|Hin]; [|now apply IH].
    destruct (mergeTrade_tracks st first Hids) as (orderId & Hin & Hknown).
    exists orderId. split; [done|]. now apply merge_grows.
Qed.

(** Against a store that already tracks an id of every identified trade,
    [merge] adds exactly the unidentified trades and counts the others as
    duplicates. *)
Lemma merge_again (trades : list Trade) (st : MergeState) :
  (forall trade, trade ∈ trades -> unidentified newOrders trade = false ->
     exists orderId,
       orderId ∈ extractTradeOrderIds trade newOrders
       /\ orderId ∈ orderIds (database st)) ->
  let final := fold_left step trades st in
  newTradeCount final
  = (newTradeCount st + length (List.filter (unidentified newOrders) trades))%nat
  /\ duplicateCount final
     = (duplicateCount st
        + length (List.filter (fun t => negb (unidentified newOrders t)) trades))%nat.
Proof.
  revert st. induction trades as [|trade trades IH]; intros st Hknown; simpl; [lia|].
  assert (Hstep : orderIds (database (step st trade)) = orderIds (database st)
                  /\ newTradeCount (step st trade)
                     = (newTradeCount st + if unidentified newOrders trade then 1 else 0)%nat
                  /\ duplicateCount (step st trade)
                     = (duplicateCount st + if unidentified newOrders trade then 0 else 1)%nat).
  { specialize (Hknown trade (list_elem_of_here _ _)).
    unfold unidentified, mergeTrade in *.
    destruct (extractTradeOrderIds trade newOrders) as [|first ids];
      [cbn; split; [done|lia]|].
    destruct (Hknown eq_refl) as (orderId & Hin & Hk).
    rewrite (proj2 (known_id (first :: ids) _)) by (now exists orderId). cbn. split; [done|lia]. }
  destruct Hstep as (Hids & Hnew & Hdup).
  destruct (IH (step st trade)) as [Hn Hd].
  { intros t Hin Ht. rewrite Hids. apply Hknown; [now right|done]. }
  rewrite Hn, Hd, Hnew, Hdup.
  destruct (unidentified newOrders trade); simpl; lia.
Qed.

End MergeFacts.

(** A trade without any order id is added by every merge.  The trade priced
    from an export without order ids has none that can be resolved, and the
    second merge of the same trades and orders adds it a second time. *)
Lemma merge_adds_unidentified_again :
  exists priced,
    processOrders anonymousOrders = Some [priced]
    /\ extractTradeOrderIds priced anonymousOrders = []
    /\ let first :=
         mergeTradesWithDatabase sampleIds emptyDatabase [priced] anonymousOrders in
       let second :=
         mergeTradesWithDatabase sampleIds (database first) [priced] anonymousOrders in
       newTradeCount first = 1%nat
       /\ newTradeCount second = 1%nat
       /\ newTradeCount second <> 0%nat
       /\ length (dbTrades (database second)) = 2%nat.
Proof.
  eexists. split; [vm_compute; reflexivity|].
  vm_compute. repeat split; try reflexivity. discriminate.
Qed.

(** C1, as the code has it.  For every store and every pair of new trades
    and new orders, merging the same pair a second time into the updated
    store adds exactly the trades that have no resolvable order id and
    counts every other trade as a duplicate; so when every trade has a
    resolvable order id the second merge adds none. *)
Theorem merge_idempotent_on_identified (generateTradeId generateTradeId' : nat -> string)
    (db : TradeDatabase) (newTrades : list Trade) (newOrders : list Order) :
  let first := mergeTradesWithDatabase generateTradeId db newTrades newOrders in
  let second :=
    mergeTradesWithDatabase generateTradeId' (database first) newTrades newOrders in
  newTradeCount second = length (List.filter (unidentified newOrders) newTrades)
  /\ duplicateCount second
     = length (List.filter (fun t => negb (unidentified newOrders t)) newTrades)
  /\ ((forall t, t ∈ newTrades -> unidentified newOrders t = false) ->
      newTradeCount second = 0%nat /\ duplicateCount second = length newTrades).
Proof.
  intros first second.
  destruct (merge_again generateTradeId' newOrders newTrades
              {| database := database first; newTradeCount := 0; duplicateCount := 0;
                 addedTrades := []; generated := 0 |}) as [Hnew Hdup].
  { intros trade Hin Hids. cbn [database]. now apply merge_tracks. }
  unfold second, mergeTradesWithDatabase. rewrite Hnew, Hdup.
  cbn [newTradeCount duplicateCount Nat.add].
  split; [done|]. split; [done|]. intros Hall.
  clear -Hall. induction newTrades as [|t ts IH]; [done|].
  cbn. rewrite (Hall t) by left. cbn.
  destruct IH as [-> ->]; [|done]. intros u Hu. apply Hall. now right.
Qed.

Lemma merge_idempotent_on_identified_witness :
  let first := mergeTradesWithDatabase sampleIds emptyDatabase mockTrades [] in
  let second := mergeTradesWithDatabase sampleIds (database first) mockTrades [] in
  newTradeCount first = 2%nat
  /\ newTradeCount second = 0%nat /\ duplicateCount second = 2%nat.
Proof.
  split; [vm_compute; reflexivity|].
  apply (merge_idempotent_on_identified sampleIds sampleIds emptyDatabase mockTrades []).
  intros t Hin. vm_compute in Hin.
  repeat (apply elem_of_cons in Hin as [->|Hin]; [vm_compute; reflexivity|]).
  now apply elem_of_nil in Hin.
Defined.

(** ** The remote merge *)

Import FirebaseSync.

Lemma pullTrade_recognised (st : PullState) (trade : Trade) :
  recognised st trade = true -> pullTrade st trade = st.
Proof.
  unfold recognised, pullTrade. intros Hrec.
  destruct (truthyStr (tradeId trade) && _); [done|].
  destruct (existsb _ _); [done|].
  cbn in Hrec. now rewrite Hrec.
Qed.

Lemma pullTrade_new (st : PullState) (trade : Trade) :
  recognised st trade = false ->
  pullTrade st trade
  = {| localTrades := localTrades st ++ [trade];
       localIds := localIds st ∪ tradeIdSet trade;
       localOrderIds := localOrderIds st ∪ list_to_set (trackedOrderIds trade);
       localFingerprints := localFingerprints st ∪ {[ fingerprint trade ]};
       merged := S (merged st) |}.
Proof.
  unfold recognised, pullTrade. intros Hrec.
  destruct (truthyStr (tradeId trade) && _); [done|].
  destruct (existsb _ _); [done|].
  cbn in Hrec. now rewrite Hrec.
Qed.

(** A pull only ever adds to its look-up sets, so what it recognised once
    it recognises from then on. *)
Lemma recognised_mono (st st' : PullState) (trade : Trade) :
  localIds st ⊆ localIds st' ->
  localOrderIds st ⊆ localOrderIds st' ->
  localFingerprints st ⊆ localFingerprints st' ->
  recognised st trade = true -> recognised st' trade = true.
Proof.
  unfold recognised. intros Hids Horders Hprints.
  rewrite !orb_true_iff, !andb_true_iff, !bool_decide_eq_true, !existsb_exists.
  intros [[[Hid Hin]|(oid & Hoid & Hin)]|Hin].
  - left. left. split; [done|]. now apply Hids.
  - left. right. exists oid. split; [done|].
    apply bool_decide_eq_true. apply bool_decide_eq_true in Hin. now apply Horders.
  - right. now apply Hprints.
Qed.

Lemma pullTrade_grows (st : PullState) (trade : Trade) :
  localIds st ⊆ localIds (pullTrade st trade)
  /\ localOrderIds st ⊆ localOrderIds (pullTrade st trade)
  /\ localFingerprints st ⊆ localFingerprints (pullTrade st trade).
Proof.
  destruct (recognised st trade) eqn:Hrec.
  - now rewrite pullTrade_recognised.
  - rewrite pullTrade_new by done. cbn. set_solver.
Qed.

Lemma pullTrade_recognises (st : PullState) (trade : Trade) :
  recognised (pullTrade st trade) trade = true.
Proof.
  destruct (recognised st trade) eqn:Hrec.
  - now rewrite pullTrade_recognised.
  - rewrite pullTrade_new by done. unfold recognised. cbn.
    rewrite !orb_true_iff. right. apply bool_decide_eq_true. set_solver.
Qed.

Lemma pull_grows (remote : list Trade) (st : PullState) :
  localIds st ⊆ localIds (fold_left pullTrade remote st)
  /\ localOrderIds st ⊆ localOrderIds (fold_left pullTrade remote st)
  /\ localFingerprints st ⊆ localFingerprints (fold_left pullTrade remote st).
Proof.
  revert st. induction remote as [|trade remote IH]; intros st; simpl; [done|].
  destruct (pullTrade_grows st trade) as (H1 & H2 & H3).
  destruct (IH (pullTrade st trade)) as (H4 & H5 & H6).
  repeat split; etrans; done.
Qed.

Lemma pull_recognises (remote : list Trade) (st : PullState) (trade : Trade) :
  trade ∈ remote -> recognised (fold_left pullTrade remote st) trade = true.
Proof.
  revert st. induction remote as [|first remote IH]; intros st Hin.
  - now apply elem_of_nil in Hin.
  - simpl. apply elem_of_cons in Hin as [->|Hin]; [|now apply IH].
    destruct (pull_grows remote (pullTrade st first)) as (H1 & H2 & H3).
    apply (recognised_mono (pullTrade st first)); try done. apply pullTrade_recognises.
Qed.

Lemma pull_nothing_new (remote : list Trade) (st : PullState) :
  (forall trade, trade ∈ remote -> recognised st trade = true) ->
  fold_left pullTrade remote st = st.
Proof.
  induction remote as [|trade remote IH]; intros Hall; simpl; [done|].
  rewrite pullTrade_recognised by (apply Hall; left).
  apply IH. intros t Ht. apply Hall. now right.
Qed.

Lemma initialPullState_snoc (trades : list Trade) (trade : Trade) :
  localIds (initialPullState (trades ++ [trade]))
  = localIds (initialPullState trades) ∪ tradeIdSet trade
  /\ localOrderIds (initialPullState (trades ++ [trade]))
     = localOrderIds (initialPullState trades) ∪ list_to_set (trackedOrderIds trade)
  /\ localFingerprints (initialPullState (trades ++ [trade]))
     = localFingerprints (initialPullState trades) ∪ {[ fingerprint trade ]}.
Proof.
  unfold initialPullState. cbn [localIds localOrderIds localFingerprints].
  rewrite !map_app, !union_list_app_L, list_to_set_app_L.
  cbn [map union_list fold_right list_to_set]. now rewrite !(right_id_L ∅ (∪)).
Qed.

Lemma pullTrade_InSync (st : PullState) (trade : Trade) :
  InSync st -> InSync (pullTrade st trade).
Proof.
  intros (Hids & Horders & Hprints).
  destruct (recognised st trade) eqn:Hrec.
  - now rewrite pullTrade_recognised.
  - rewrite pullTrade_new by done. unfold InSync. cbn [localTrades localIds localOrderIds
      localFingerprints].
    destruct (initialPullState_snoc (localTrades st) trade) as (-> & -> & ->).
    now rewrite <- Hids, <- Horders, <- Hprints.
Qed.

Lemma pull_InSync (remote : list Trade) (st : PullState) :
  InSync st -> InSync (fold_left pullTrade remote st).
Proof.
  revert st. induction remote as [|trade remote IH]; intros st Hsync; simpl; [done|].
  now apply IH, pullTrade_InSync.
Qed.

(** A trade whose fingerprint is that of a local trade is recognised. *)
Lemma fingerprint_recognised (localTrades : list Trade) (stored trade : Trade) :
  stored ∈ localTrades -> fingerprint trade = fingerprint stored ->
  recognised (initialPullState localTrades) trade = true.
Proof.
  intros Hin Hfp. unfold recognised. rewrite !orb_true_iff. right.
  apply bool_decide_eq_true. cbn. rewrite Hfp.
  apply elem_of_list_to_set, list_elem_of_fmap. now exists stored.
Qed.

(** [mergeTradesWithDatabase] does not look at fingerprints: two trades
    without order ids and with one fingerprint are both added, and added
    again by a second merge, which counts no duplicate. *)
Lemma merge_ignores_fingerprint :
  let first := mergeTradesWithDatabase sampleIds emptyDatabase twinTrades [] in
  let second := mergeTradesWithDatabase sampleIds (database first) twinTrades [] in
  fingerprint (bareTrade "ES1!" 5) = fingerprint (bareTrade "ES1!" 3)
  /\ Forall (fun t => unidentified [] t = true) twinTrades
  /\ newTradeCount second = 2%nat
  /\ duplicateCount second = 0%nat
  /\ length (dbTrades (database second)) = 4%nat.
Proof. vm_compute. repeat split; try reflexivity. repeat constructor. Qed.

(** C9, as the code has it.  In the merge of the remote-sync path
    ([pullTradeDatabase]), a trade whose fingerprint (alphanumeric symbol,
    entry and exit timestamps, entry and exit prices in cents) is that of a
    trade already stored is recognised as a duplicate and not added, order
    ids or not; so merging the same remote trades a second time adds
    nothing. *)
Theorem fingerprint_dedup_on_pull :
  (forall localTrades stored trade,
      stored ∈ localTrades ->
      fingerprint trade = fingerprint stored ->
      pullTradeDatabase localTrades [trade] = initialPullState localTrades)
  /\ (forall locals remote,
        let first := pullTradeDatabase locals remote in
        let second := pullTradeDatabase (localTrades first) remote in
        merged second = 0%nat /\ localTrades second = localTrades first).
Proof.
  split.
  - intros locals stored trade Hin Hfp. unfold pullTradeDatabase. simpl.
    apply pullTrade_recognised. now apply (fingerprint_recognised locals stored).
  - intros locals remote first second.
    assert (Hsync : InSync first).
    { apply pull_InSync. now repeat split. }
    destruct Hsync as (Hids & Horders & Hprints).
    assert (Hsame : second = initialPullState (localTrades first)).
    { apply pull_nothing_new. intros trade Hin.
      apply (recognised_mono first).
      - now rewrite Hids.
      - now rewrite Horders.
      - now rewrite Hprints.
      - now apply pull_recognises. }
    now rewrite Hsame.
Qed.

Lemma fingerprint_dedup_on_pull_witness :
  let pulled := pullTradeDatabase [bareTrade "ES1!" 5] [bareTrade "ES1!" 3] in
  merged pulled = 0%nat /\ localTrades pulled = [bareTrade "ES1!" 5].
Proof.
  destruct fingerprint_dedup_on_pull as [Hprint _]. cbv zeta.
  rewrite (Hprint [bareTrade "ES1!" 5] (bareTrade "ES1!" 5) (bareTrade "ES1!" 3)).
  - split; reflexivity.
  - left.
  - vm_compute. reflexivity.
Defined.

(** ** The worked examples in binary64 *)

(** The round trip of C6 in binary64: every figure is exact. *)
Example round_trip_in_binary64 :
  Binary64.grossProfit 6970.75%float 6976.75%float 5%float 50%float = 1500%float
  /\ Binary64.registryCommission 2.5%float 5%float = 25%float
  /\ PrimFloat.sub 1500%float 25%float = 1475%float.
Proof. repeat split; vm_compute; reflexivity. Qed.

(** The shares of C7 in binary64: 6/10 and 4/10 are rounded, yet the
    products are 6 and 4 and add up to 10. *)
Example parent_commission_in_binary64 :
  Binary64.share 10%float 6%float 10%float = 6%float
  /\ Binary64.share 10%float 4%float 10%float = 4%float
  /\ PrimFloat.add (Binary64.share 10%float 6%float 10%float)
                   (Binary64.share 10%float 4%float 10%float) = 10%float.
Proof. repeat split; vm_compute; reflexivity. Qed.
